(** * The lazy query builder of the Python SDK client ([dagger/client/_core.py])

    A shallow embedding of [Arg], [Field], [Context] and [Root]: the chain of
    selections a [Context] accumulates, its collapse into one request, the
    resolution of embedded object handles, the mapping of transport failures
    and the walk over the response.

    Python objects that the module mutates or copies (the [deque] of
    selections, the [args] dictionary of a [Field]) live in a store and are
    named by references, so that aliasing between forked contexts is visible.
    Everything else is a value. *)

From Stdlib Require Import ZArith String List Permutation Lia.
From stdpp Require Import base option list.
Import ListNotations.
Set Warnings "-register-all".
Local Open Scope string_scope.
Local Open Scope list_scope.

(** ** Dictionaries

    A Python [dict] keeps insertion order, which is the order keyword
    arguments reach the query builder in; it is an association list with
    distinct keys. *)

Module Dict.

Abbreviation t V := (list (string * V)) (only parsing).

Fixpoint get {V} (k : string) (d : t V) : option V :=
  match d with
  | [] => None
  | (k', v) :: d' => if String.eqb k k' then Some v else get k d'
  end.

(** [d[k] = v]: an existing key keeps its position, a new key goes last. *)
Fixpoint set {V} (k : string) (v : V) (d : t V) : t V :=
  match d with
  | [] => [(k, v)]
  | (k', v') :: d' =>
      if String.eqb k k' then (k', v) :: d' else (k', v') :: set k v d'
  end.

Definition keys {V} (d : t V) : list string := map fst d.

Definition mem {V} (k : string) (d : t V) : bool :=
  match get k d with Some _ => true | None => false end.

(** [{k: v for (k, v) in items}], left to right. *)
Definition of_items {V} (items : list (string * V)) : t V :=
  fold_left (fun d kv => set (fst kv) (snd kv) d) items [].

End Dict.

(** ** Values *)

(** A [Context] holds its collaborators by handle and its chain by
    reference: [selections] names a deque in the store. *)
Record Context := mkContext {
  session : nat;
  schema : nat;
  selections : nat
}.

(** [dataclasses.replace(self, selections=...)]. *)
Definition replace_selections (self : Context) (sel : nat) : Context :=
  {| session := session self; schema := schema self; selections := sel |}.

(** Python values that occur as arguments, identifiers and responses. *)
Inductive pyval : Type :=
| VNone
| VMissing                                        (* dataclasses.MISSING *)
| VBool (b : bool)
| VInt (n : Z)
| VStr (s : string)
| VScalar (cls : string) (s : string)             (* instance of a Scalar subclass *)
| VList (items : list pyval)
| VTuple (items : list pyval)
| VDict (entries : list (string * pyval))
| VInput (cls : string) (fields : list (string * pyval))   (* Input dataclass *)
| VHandle (cls : string) (ctx : Context) (slots : list (string * pyval)).
                                                  (* generated Type object *)

(** An object as [is] sees it. [None], [MISSING], [True] and [False] are
    singletons of the interpreter; any other object is told apart by its
    address, whatever it holds. *)
Record pyobj := mkObj { addr : nat; content : pyval }.

Definition py_is (a b : pyobj) : bool :=
  match content a, content b with
  | VNone, VNone => true
  | VMissing, VMissing => true
  | VBool x, VBool y => Bool.eqb x y
  | (VNone | VMissing | VBool _), _ => false
  | _, (VNone | VMissing | VBool _) => false
  | _, _ => Nat.eqb (addr a) (addr b)
  end.

Definition MISSING : pyobj := {| addr := 0; content := VMissing |}.

(** ** Arguments *)

Record Arg := mkArg {
  arg_name : string;
  arg_value : pyobj;
  arg_default : pyobj
}.

(** [Arg(name, value)]: the default is [MISSING]. *)
Definition Arg2 (n : string) (v : pyobj) : Arg :=
  {| arg_name := n; arg_value := v; arg_default := MISSING |}.

(** [dataclasses.asdict]: a dataclass instance becomes the dictionary of its
    fields, recursively through dataclasses, lists, tuples and dicts; any
    other value is copied. *)
Fixpoint asdict (v : pyval) : pyval :=
  match v with
  | VInput _ fields => VDict (map (fun kv => (fst kv, asdict (snd kv))) fields)
  | VList items => VList (map asdict items)
  | VTuple items => VTuple (map asdict items)
  | VDict entries => VDict (map (fun kv => (fst kv, asdict (snd kv))) entries)
  | _ => v
  end.

(** Modelled from the spec: [InputHint] of [dagger/client/_guards.py], "a
    value that is itself a structured input type". *)
Definition InputHint_is_bearable (v : pyval) : bool :=
  match v with VInput _ _ => true | _ => false end.

(** Modelled from the spec: [InputSeqHint] of [dagger/client/_guards.py], "a
    sequence of structured input types". A string is not such a sequence. *)
Definition InputSeqHint_is_bearable (v : pyval) : bool :=
  match v with
  | VList items | VTuple items => forallb InputHint_is_bearable items
  | _ => false
  end.

(** The elements a [for] loop over the value visits. *)
Definition py_iter (v : pyval) : list pyval :=
  match v with
  | VList items | VTuple items => items
  | _ => []
  end.

Definition as_input (self : Arg) : pyval :=
  let value := content (arg_value self) in
  if InputHint_is_bearable value then asdict value
  else if InputSeqHint_is_bearable value then VList (map asdict (py_iter value))
  else value.

(** ** Selection nodes *)

(** [args] is a reference to a dictionary of the store: [replace] shares it
    between the node and its copy, and [resolve_ids] writes through it.
    [children] is only ever set to a dictionary built for the purpose. *)
Inductive Field : Type := mkField {
  field_type_name : string;
  field_name : string;
  field_args : nat;
  field_children : list (string * Field)
}.

(** [dataclasses.replace(self, children=...)]. *)
Definition replace_children (self : Field) (ch : list (string * Field)) : Field :=
  {| field_type_name := field_type_name self; field_name := field_name self;
     field_args := field_args self; field_children := ch |}.

Definition add_child (self child : Field) : Field :=
  replace_children self (Dict.set (field_name child) child []).

(** ** The store and the monad of the module's methods *)

Record heap := mkHeap {
  deques : list (list Field);
  dicts : list (Dict.t pyval)
}.

Definition empty_heap : heap := {| deques := []; dicts := [] |}.

(** An exception raised by a collaborator (the HTTP client, the GraphQL
    transport): the classes it is an instance of, and [str(e)]. *)
Inductive exc_class :=
| httpx_TimeoutException
| httpx_RequestError
| gql_TransportClosed
| gql_TransportProtocolError
| gql_TransportServerError
| gql_TransportQueryError.

Record pyexc := mkExc { exc_classes : list exc_class; exc_str : string }.

Inductive exn : Type :=
| InvalidQueryError (msg : string)
| ExecuteTimeoutError (msg : string) (cause : pyexc)
| TransportError (msg : string) (cause : pyexc)
| QueryError (detail : string) (cause : pyexc)
| Reraised (e : pyexc)
| KeyError (key : string)
| IndexError (msg : string)
| TypeError (msg : string)
| AttributeError (msg : string)
| GraphQLError (msg : string)
| StructureHandlerNotFoundError (msg : string)
| BadRef.    (* a reference outside the store: no run of the program gets there *)

Inductive result (A : Type) : Type :=
| Ok (a : A)
| Raise (e : exn).
Arguments Ok {A} a.
Arguments Raise {A} e.

Definition M (A : Type) : Type := heap -> result A * heap.

Definition ret {A} (a : A) : M A := fun h => (Ok a, h).

Definition bind {A B} (m : M A) (k : A -> M B) : M B :=
  fun h => match m h with
           | (Ok a, h') => k a h'
           | (Raise e, h') => (Raise e, h')
           end.

Definition raise {A} (e : exn) : M A := fun h => (Raise e, h).

Declare Scope py_scope.
Delimit Scope py_scope with py.
Notation "'let*' x ':=' m 'in' k" := (bind m (fun x => k))
  (at level 10, x name, m at level 200, k at level 200) : py_scope.
Notation "'run' m 'in' k" := (bind m (fun _ => k))
  (at level 10, m at level 200, k at level 200) : py_scope.
Local Open Scope py_scope.

(** *** Deques *)

Definition deque_new (items : list Field) : M nat :=
  fun h => (Ok (length (deques h)),
            {| deques := deques h ++ [items]; dicts := dicts h |}).

Definition deque_read (r : nat) : M (list Field) :=
  fun h => match deques h !! r with
           | Some items => (Ok items, h)
           | None => (Raise BadRef, h)
           end.

Definition deque_write (r : nat) (items : list Field) : M unit :=
  fun h => (Ok tt, {| deques := <[r := items]> (deques h); dicts := dicts h |}).

Definition deque_copy (r : nat) : M nat :=
  let* items := deque_read r in deque_new items.

Definition deque_append (r : nat) (f : Field) : M unit :=
  let* items := deque_read r in deque_write r (items ++ [f]).

(** [deque.pop()] removes and returns the rightmost element. *)
Definition deque_pop (r : nat) : M Field :=
  let* items := deque_read r in
  match last items with
  | Some f => run deque_write r (removelast items) in ret f
  | None => raise (IndexError "pop from an empty deque")
  end.

(** *** Dictionaries of arguments *)

Definition dict_new (d : Dict.t pyval) : M nat :=
  fun h => (Ok (length (dicts h)),
            {| deques := deques h; dicts := dicts h ++ [d] |}).

Definition dict_read (r : nat) : M (Dict.t pyval) :=
  fun h => match dicts h !! r with
           | Some d => (Ok d, h)
           | None => (Raise BadRef, h)
           end.

Definition dict_write (r : nat) (d : Dict.t pyval) : M unit :=
  fun h => (Ok tt, {| deques := deques h; dicts := <[r := d]> (dicts h) |}).

(** ** [Context]: building the chain *)

(** [Context(session, schema)]: [selections] defaults to a new deque. *)
Definition new_context (sess sch : nat) : M Context :=
  let* sel := deque_new [] in
  ret {| session := sess; schema := sch; selections := sel |}.

(** The dictionary comprehension of [select]. *)
Definition encode_args (args : list Arg) : Dict.t pyval :=
  Dict.of_items
    (map (fun arg => (arg_name arg, as_input arg))
         (List.filter (fun arg => negb (py_is (arg_value arg) (arg_default arg))) args)).

Definition select (self : Context) (type_name field_name : string)
    (args : list Arg) : M Context :=
  let* args_ := dict_new (encode_args args) in
  let field_ := mkField type_name field_name args_ [] in
  let* selections := deque_copy (selections self) in
  run deque_append selections field_ in
  ret (replace_selections self selections).

(** The dictionary comprehension of [select_multiple]: one [Field] per entry,
    each with an [args] dictionary of its own. *)
Fixpoint leaves (type_name : string) (fields : list (string * string))
    (acc : Dict.t Field) : M (Dict.t Field) :=
  match fields with
  | [] => ret acc
  | (k, v) :: rest =>
      let* a := dict_new [] in
      leaves type_name rest (Dict.set k (mkField type_name v a []) acc)
  end.

Definition select_multiple (self : Context) (type_name : string)
    (fields : list (string * string)) : M Context :=
  let* selections := deque_copy (selections self) in
  let* parent := deque_pop selections in
  let* ch := leaves type_name fields [] in
  let field_ := replace_children parent ch in
  run deque_append selections field_ in
  ret (replace_selections self selections).

(** ** Requests *)

(** What the schema binding builds: the field of a type applied to keyword
    arguments, with the sub-selection attached under the given aliases. *)
Inductive DSLField : Type := mkDSL {
  dsl_type : string;
  dsl_name : string;
  dsl_args : Dict.t pyval;
  dsl_selection : list (string * DSLField)
}.

Inductive Document := DSLQuery (root : DSLField).

(** ** Collaborators

    What the module takes from elsewhere: the schema binding of [gql.dsl],
    the guard on sequences of object handles, the generated [id()] accessor
    of a handle, the order in which the task group runs what was started in
    it, the session, the mapper of query errors, and whether [Scalar] derives
    from [str]. *)

(** What the schema binding raises: [AttributeError] for a type or a field
    the schema does not have, [KeyError] for an argument the field does not
    take, [GraphQLError] for a value or a sub-selection it does not accept. *)
Inductive schema_error : Type :=
| unbound_attribute (msg : string)
| unbound_argument (key : string)
| invalid_selection (msg : string).

Definition schema_exn (e : schema_error) : exn :=
  match e with
  | unbound_attribute msg => AttributeError msg
  | unbound_argument key => KeyError key
  | invalid_selection msg => GraphQLError msg
  end.

Inductive task : Type :=
| _resolve_id (pos : nat) (k : string) (v : pyval)
| _resolve_seq_id (pos idx : nat) (k : string) (v : pyval).

(** [dsl_field sch type_name name kwargs] is what looking up the type and
    the field in the schema and calling the field with the keyword
    arguments [kwargs] raises, if it raises; [dsl_select sch field_ sub] is
    what [field_.select] raises on the keyword arguments [sub], if it
    raises. [fetch_id v] is the result of [await v.id()], a
    round trip of the handle's own: it is taken by its result, and what that
    round trip does to the store on its way (the resolution of the handle's
    own chain) is not followed. *)
Class Collaborators := {
  dsl_field : nat -> string -> string -> Dict.t pyval -> option schema_error;
  dsl_select : nat -> DSLField -> list (string * DSLField) -> option schema_error;
  sequence_guard : list pyval -> bool;
  fetch_id : pyval -> result pyval;
  schedule : list task -> list task;
  session_execute : nat -> Document -> pyexc + pyval;
  _query_error_from_transport : pyexc -> Document -> option string;
  Scalar_is_str : bool
}.

(** ** [Context]: compiling the chain *)

(** [Field.to_dsl], over the dictionaries of the store: the type and the
    field are looked up in the schema and applied to the arguments, then the
    children are rendered in their order and selected under their keys. *)
Fixpoint to_dsl `{Collaborators} (schema : nat) (ds : list (Dict.t pyval))
    (self : Field) : result DSLField :=
  match ds !! field_args self with
  | None => Raise BadRef
  | Some kwargs =>
      match dsl_field schema (field_type_name self) (field_name self) kwargs with
      | Some e => Raise (schema_exn e)
      | None =>
          let field_ := mkDSL (field_type_name self) (field_name self) kwargs [] in
          match field_children self with
          | [] => Ok field_
          | ch =>
              match
                (fix each (ch : list (string * Field)) : result (list (string * DSLField)) :=
                   match ch with
                   | [] => Ok []
                   | (n, child) :: rest =>
                       match to_dsl schema ds child with
                       | Raise e => Raise e
                       | Ok c =>
                           match each rest with
                           | Raise e => Raise e
                           | Ok r => Ok ((n, c) :: r)
                           end
                       end
                   end) ch
              with
              | Raise e => Raise e
              | Ok sub =>
                  match dsl_select schema field_ sub with
                  | Some e => Raise (schema_exn e)
                  | None => Ok (mkDSL (dsl_type field_) (dsl_name field_)
                                      (dsl_args field_) sub)
                  end
              end
          end
      end
  end.

(** [functools.reduce(function, iterable)] without an initial value. *)
Definition reduce {A} (f : A -> A -> A) (l : list A) : option A :=
  match l with
  | [] => None
  | x :: xs => Some (fold_left f xs x)
  end.

Definition _collapse (child field_ : Field) : Field := add_child field_ child.

Definition build `{Collaborators} (self : Context) : M DSLField :=
  let* items := deque_read (selections self) in
  match reduce _collapse (rev items) with
  | None => raise (InvalidQueryError "No field has been selected")
  | Some root => fun h => (to_dsl (schema self) (dicts h) root, h)
  end.

Definition query `{Collaborators} (self : Context) : M Document :=
  let* d := build self in ret (DSLQuery d).

(** ** [Context]: decoding the response *)

(** The expected types a caller passes as [return_type]. [TObject] is a
    generated [Type] subclass with [__slots__], given with the type hint of
    each slot when it has one. *)
Inductive pytype : Type :=
| TStr
| TInt
| TBool
| TAny
| TNoneType
| TScalar (cls : string)
| TOptional (t : pytype)
| TList (t : pytype)
| TObject (cls : string) (slots : list (string * option pytype)).

(** [TypeHint(return_type).is_bearable(None)]. *)
Definition is_bearable_None (t : pytype) : bool :=
  match t with
  | TOptional _ | TAny | TNoneType => true
  | _ => false
  end.

(** [Optional[NoneType]] is [NoneType]: [typing] drops the repeated member
    of the union. *)
Fixpoint is_NoneType (t : pytype) : bool :=
  match t with
  | TNoneType => true
  | TOptional t' => is_NoneType t'
  | _ => false
  end.

Definition unsupported_NoneType_msg : string :=
  "Unsupported type: <class 'NoneType'>. Register a structure hook for it.".

(** [converter.structure(value, return_type)] with the hook [_struct] that
    [__post_init__] registers for the classes [_needs_hook] accepts. A value
    already of the expected class is kept; the converter has no handler for
    [NoneType] and raises; the coercions it applies to other values are not
    modelled and end in [Unmodelled]. *)
Inductive outcome (A : Type) : Type :=
| Value (a : A)
| Raises (e : exn)
| Unmodelled.
Arguments Value {A} a.
Arguments Raises {A} e.
Arguments Unmodelled {A}.

Fixpoint structure (self : Context) (t : pytype) (value : pyval) : outcome pyval :=
  match t with
  | TAny => Value value
  | TNoneType => Raises (StructureHandlerNotFoundError unsupported_NoneType_msg)
  | TStr => match value with
            | VStr s | VScalar _ s => Value (VStr s)
            | _ => Unmodelled
            end
  | TInt => match value with VInt n => Value (VInt n) | _ => Unmodelled end
  | TBool => match value with VBool b => Value (VBool b) | _ => Unmodelled end
  | TScalar cls => match value with
                   | VStr s | VScalar _ s => Value (VScalar cls s)
                   | _ => Unmodelled
                   end
  | TOptional t' =>
      if is_NoneType t'
      then Raises (StructureHandlerNotFoundError unsupported_NoneType_msg)
      else match value with
           | VNone => Value VNone
           | _ => structure self t' value
           end
  | TList t' =>
      match value with
      | VList items =>
          match
            (fix each (l : list pyval) : outcome (list pyval) :=
               match l with
               | [] => Value []
               | x :: r =>
                   match structure self t' x with
                   | Value y =>
                       match each r with
                       | Value ys => Value (y :: ys)
                       | Raises e => Raises e
                       | Unmodelled => Unmodelled
                       end
                   | Raises e => Raises e
                   | Unmodelled => Unmodelled
                   end
               end) items
          with
          | Value ys => Value (VList ys)
          | Raises e => Raises e
          | Unmodelled => Unmodelled
          end
      | _ => Unmodelled
      end
  | TObject cls slots =>
      (* _struct(d, cls): obj = cls(self), then one setattr per slot that
         has a hint and occurs in d *)
      match value with
      | VDict d =>
          match
            (fix each (sl : list (string * option pytype)) : outcome (list (string * pyval)) :=
               match sl with
               | [] => Value []
               | (slot, hint) :: r =>
                   match hint, Dict.get slot d with
                   | Some t', Some x =>
                       match structure self t' x with
                       | Value y =>
                           match each r with
                           | Value ys => Value (Dict.set slot y ys)
                           | Raises e => Raises e
                           | Unmodelled => Unmodelled
                           end
                       | Raises e => Raises e
                       | Unmodelled => Unmodelled
                       end
                   | _, _ => each r
                   end
               end) slots
          with
          | Value attrs => Value (VHandle cls self attrs)
          | Raises e => Raises e
          | Unmodelled => Unmodelled
          end
      | _ => Unmodelled
      end
  end.

(** What a call that ends in [outcome] hands to its caller. *)
Definition returned {A} (o : outcome A) : result (outcome A) :=
  match o with
  | Raises e => Raise e
  | _ => Ok o
  end.

(** The loop of [get_value]: follow the names of the chain while the value
    is a dictionary. *)
Fixpoint walk (fs : list Field) (value : pyval) : result pyval :=
  match fs with
  | [] => Ok value
  | f :: rest =>
      match value with
      | VDict d =>
          match Dict.get (field_name f) d with
          | Some v => walk rest v
          | None => Raise (KeyError (field_name f))
          end
      | _ => Ok value
      end
  end.

Definition is_None (v : pyval) : bool :=
  match v with VNone => true | _ => false end.

Definition null_response_msg : string :=
  "Required field got a null response. Check if parent fields are valid.".

Definition get_value (self : Context) (value : pyval) (return_type : pytype)
    : M (outcome pyval) :=
  let* items := deque_read (selections self) in
  match walk items value with
  | Raise e => raise e
  | Ok value =>
      if is_None value && negb (is_bearable_None return_type)
      then raise (InvalidQueryError null_response_msg)
      else fun h => (returned (structure self return_type value), h)
  end.

(** ** Guards *)

(** Modelled from the spec: [is_id_type] of [dagger/client/_guards.py],
    a value that is itself a handle to another object. *)
Definition is_id_type (v : pyval) : bool :=
  match v with VHandle _ _ _ => true | _ => false end.

(** Modelled from the spec: [is_id_type_sequence] of
    [dagger/client/_guards.py], which holds of sequences only (a list or a
    tuple, not a string); which of them it takes for sequences of handles
    is the collaborator [sequence_guard]. *)
Definition is_id_type_sequence `{Collaborators} (v : pyval) : bool :=
  match v with
  | VList items | VTuple items => sequence_guard items
  | _ => false
  end.

Section Methods.
Context `{Collaborators}.

(** *** [resolve_ids] *)

(** [for seq_i, seq_v in enumerate(sel.args[k])], from index [idx] on. *)
Fixpoint start_seq (pos : nat) (k : string) (idx : nat) (items : list pyval)
    : list task :=
  match items with
  | [] => []
  | seq_v :: rest =>
      (if is_id_type seq_v then [_resolve_seq_id pos idx k seq_v] else [])
      ++ start_seq pos k (S idx) rest
  end.

(** [for k, v in sel.args.items()]: the tasks started, in order. *)
Fixpoint start_args (pos : nat) (sel : Field) (items : list (string * pyval))
    : M (list task) :=
  match items with
  | [] => ret []
  | (k, v) :: rest =>
      let* ts :=
        (if is_id_type_sequence v then
           (* sel.args[k] = list(v) *)
           let* d := dict_read (field_args sel) in
           run dict_write (field_args sel) (Dict.set k (VList (py_iter v)) d) in
           (* enumerate(sel.args[k]) *)
           let* d' := dict_read (field_args sel) in
           match Dict.get k d' with
           | Some l => ret (start_seq pos k 0 (py_iter l))
           | None => raise (KeyError k)
           end
         else if is_id_type v then ret [_resolve_id pos k v]
         else ret []) in
      let* ts' := start_args pos sel rest in
      ret (ts ++ ts')
  end.

(** [for i, sel in enumerate(self.selections)], from index [pos] on. *)
Fixpoint start_all (pos : nat) (sels : list Field) : M (list task) :=
  match sels with
  | [] => ret []
  | sel :: rest =>
      let* d := dict_read (field_args sel) in
      let* ts := start_args pos sel d in
      let* ts' := start_all (S pos) rest in
      ret (ts ++ ts')
  end.

Definition await (r : result pyval) : M pyval :=
  match r with
  | Ok v => ret v
  | Raise e => raise e
  end.

(** The bodies of [_resolve_id] and [_resolve_seq_id]. *)
Definition run_task (self : Context) (t : task) : M unit :=
  match t with
  | _resolve_id pos k v =>
      let* items := deque_read (selections self) in
      match items !! pos with
      | None => raise (IndexError "deque index out of range")
      | Some sel =>
          let* r := await (fetch_id v) in
          let* d := dict_read (field_args sel) in
          dict_write (field_args sel) (Dict.set k r d)
      end
  | _resolve_seq_id pos idx k v =>
      let* items := deque_read (selections self) in
      match items !! pos with
      | None => raise (IndexError "deque index out of range")
      | Some sel =>
          let* r := await (fetch_id v) in
          let* d := dict_read (field_args sel) in
          match Dict.get k d with
          | None => raise (KeyError k)
          | Some (VList l) =>
              if Nat.ltb idx (List.length l)
              then dict_write (field_args sel) (Dict.set k (VList (<[idx := r]> l)) d)
              else raise (IndexError "list assignment index out of range")
          | Some _ => raise (TypeError "object does not support item assignment")
          end
      end
  end.

(** The task group. A task suspends once, on the fetch, which touches
    nothing of the store, so a run of the group is the tasks one after the
    other in the order in which they come to write, which the scheduler
    picks; the first failure cancels the rest and ends the group. *)
Fixpoint run_tasks (self : Context) (ts : list task) : M unit :=
  match ts with
  | [] => ret tt
  | t :: rest => run run_task self t in run_tasks self rest
  end.

Definition resolve_ids (self : Context) : M unit :=
  let* items := deque_read (selections self) in
  let* ts := start_all 0 items in
  run_tasks self (schedule ts).

(** *** [execute] *)

Definition exc_class_eqb (a b : exc_class) : bool :=
  match a, b with
  | httpx_TimeoutException, httpx_TimeoutException
  | httpx_RequestError, httpx_RequestError
  | gql_TransportClosed, gql_TransportClosed
  | gql_TransportProtocolError, gql_TransportProtocolError
  | gql_TransportServerError, gql_TransportServerError
  | gql_TransportQueryError, gql_TransportQueryError => true
  | _, _ => false
  end.

Definition isinstance (e : pyexc) (c : exc_class) : bool :=
  existsb (exc_class_eqb c) (exc_classes e).

Definition timeout_msg : string :=
  "Request timed out. Try setting a higher value in 'execute_timeout' "
  ++ "config for this `dagger.Connection()`.".

Definition closed_msg : string :=
  "Connection to engine has been closed. Make sure you're "
  ++ "calling the API within a `dagger.Connection()` context.".

(** The [except] clauses of [execute], in their order. *)
Definition on_failure (e : pyexc) (query : Document) : exn :=
  if isinstance e httpx_TimeoutException then
    ExecuteTimeoutError timeout_msg e
  else if isinstance e httpx_RequestError then
    TransportError ("Failed to make request: " ++ exc_str e) e
  else if isinstance e gql_TransportClosed then
    TransportError closed_msg e
  else if isinstance e gql_TransportProtocolError
          || isinstance e gql_TransportServerError then
    TransportError ("Unexpected response from engine: " ++ exc_str e) e
  else if isinstance e gql_TransportQueryError then
    match _query_error_from_transport e query with
    | Some error => QueryError error e
    | None => Reraised e
    end
  else Reraised e.

Definition execute (self : Context) (return_type : option pytype)
    : M (outcome pyval) :=
  run resolve_ids self in
  let* query := query self in
  let* result :=
    match session_execute (session self) query with
    | inr result => ret result
    | inl e => raise (on_failure e query)
    end in
  match return_type with
  | Some t => get_value self result t
  | None => ret (Value VNone)
  end.

(** *** [Root] *)

Record Root := mkRoot { _ctx : Context }.

Definition _graphql_name : string := "Query".

Definition from_context (ctx : Context) : M Root :=
  let* sel := deque_new [] in
  ret (mkRoot (replace_selections ctx sel)).

(** Modelled from the spec: [Type._select] of [dagger/client/base.py], the
    selection of a field of the object's own type on its context. *)
Definition _select (self : Root) (field_name : string) (args : list Arg)
    : M Context :=
  select (_ctx self) _graphql_name field_name args.

(** A generated class as [_get_object_instance] looks at it. Classes are
    named by their qualified name. *)
Record pyclass := mkClass {
  cls_name : string;
  is_id_type_subclass : bool;
  _id_type : string;
  _from_id_query_field : string
}.

(** [type(v)], by name. *)
Definition type_of (v : pyval) : string :=
  match v with
  | VNone => "NoneType"
  | VMissing => "dataclasses._MISSING_TYPE"
  | VBool _ => "bool"
  | VInt _ => "int"
  | VStr _ => "str"
  | VScalar cls _ => cls
  | VList _ => "list"
  | VTuple _ => "tuple"
  | VDict _ => "dict"
  | VInput cls _ => cls
  | VHandle cls _ _ => cls
  end.

(** [isinstance(v, str)]. *)
Definition isinstance_str (v : pyval) : bool :=
  match v with
  | VStr _ => true
  | VScalar _ _ => Scalar_is_str
  | _ => false
  end.

Definition class_repr (c : string) : string := "<class '" ++ c ++ "'>".

Definition _get_object_instance (self : Root) (id_ : pyobj) (cls : pyclass)
    : M pyval :=
  if negb (is_id_type_subclass cls) then
    raise (TypeError ("Unsupported type '" ++ cls_name cls ++ "'"))
  else if negb (String.eqb (type_of (content id_)) (_id_type cls))
          && negb (isinstance_str (content id_)) then
    raise (TypeError ("Expected id type '" ++ class_repr (_id_type cls)
                      ++ "', got '" ++ class_repr (type_of (content id_)) ++ "'"))
  else
    let* ctx := _select self (_from_id_query_field cls) [Arg2 "id" id_] in
    ret (VHandle (cls_name cls) ctx []).

End Methods.

(** ** Clients used to state the properties *)

(** A sequence of [select] calls, each applied to the result of the one
    before. *)
Fixpoint select_all (self : Context) (calls : list (string * string * list Arg))
    : M Context :=
  match calls with
  | [] => ret self
  | (type_name, field_name, args) :: rest =>
      let* self' := select self type_name field_name args in
      select_all self' rest
  end.

(** Everything that was in the store before is still there, as it was. *)
Definition extends (h h' : heap) : Prop :=
  deques h `prefix_of` deques h' /\ dicts h `prefix_of` dicts h'.

(** The dictionary [leaves] builds when the store has [a] dictionaries. *)
Fixpoint leaves_from (type_name : string) (fields : list (string * string))
    (a : nat) (acc : Dict.t Field) : Dict.t Field :=
  match fields with
  | [] => acc
  | (k, v) :: rest =>
      leaves_from type_name rest (S a) (Dict.set k (mkField type_name v a []) acc)
  end.

(** The right fold the spec describes: each node becomes the only child of
    the node before it. *)
Fixpoint nest (first : Field) (rest : list Field) : Field :=
  match rest with
  | [] => first
  | next :: rest' => add_child first (nest next rest')
  end.

(** The chain [container], [from(image: "alpine")], [id] from a new root
    context, and a response to it. *)
Definition alpine : pyobj := {| addr := 1; content := VStr "alpine" |}.

Definition container_from_id : M Context :=
  let* root := new_context 0 0 in
  let* c := select root "Query" "container" [] in
  let* f := select c "Container" "from" [Arg2 "image" alpine] in
  select f "Container" "id" [].

Definition container_from_id_payload : pyval :=
  VDict [("container", VDict [("from", VDict [("id", VStr "abc123")])])].

(** A schema given by its table: the fields of each type, each with the
    names of the arguments it takes. The messages are those of [gql.dsl]. *)
Definition table_field (table : Dict.t (Dict.t (list string)))
    (type_name name : string) (kwargs : Dict.t pyval) : option schema_error :=
  match Dict.get type_name table with
  | None =>
      Some (unbound_attribute ("Type '" ++ type_name ++ "' not found in the schema!"))
  | Some fields =>
      match Dict.get name fields with
      | None =>
          Some (unbound_attribute
                  ("Field " ++ name ++ " does not exist in type " ++ type_name ++ "."))
      | Some params =>
          match List.find (fun k => negb (existsb (String.eqb k) params))
                          (Dict.keys kwargs) with
          | Some k => Some (unbound_argument k)
          | None => None
          end
      end
  end.

Definition sample_schema : Dict.t (Dict.t (list string)) :=
  [("Query", [("container", []); ("directory", []);
              ("loadContainerFromID", ["id"])]);
   ("Container", [("from", ["image"; "address"]); ("id", []);
                  ("stdout", []); ("stderr", []);
                  ("withExec", ["args"]);
                  ("withDirectory", ["path"; "directory"]);
                  ("withMountedDirectory", ["path"; "source"])]);
   ("Directory", [("id", []); ("entries", [])])].

(** Collaborators to run the methods with: the schema is [sample_schema]
    and accepts every sub-selection, the guard takes a sequence whose
    elements are all handles, the identifier of a handle is made of its
    class, the task group runs the tasks last to first, and the session
    answers every request with [answer]. *)
Definition sample_collaborators (answer : pyexc + pyval) : Collaborators :=
  {| dsl_field := fun _ => table_field sample_schema;
     dsl_select := fun _ _ _ => None;
     sequence_guard := forallb is_id_type;
     fetch_id := fun v =>
       match v with
       | VHandle cls _ _ => Ok (VScalar (cls ++ "ID") ("id of " ++ cls))
       | _ => Raise (TypeError "object has no attribute 'id'")
       end;
     schedule := @rev task;
     session_execute := fun _ _ => answer;
     _query_error_from_transport := fun _ _ => None;
     Scalar_is_str := true |}.

(** The sub-selection of [to_dsl]: the children rendered in their order,
    each under its key. *)
Fixpoint to_dsl_each `{Collaborators} (schema : nat) (ds : list (Dict.t pyval))
    (ch : list (string * Field)) : result (list (string * DSLField)) :=
  match ch with
  | [] => Ok []
  | (n, child) :: rest =>
      match to_dsl schema ds child with
      | Raise e => Raise e
      | Ok c =>
          match to_dsl_each schema ds rest with
          | Raise e => Raise e
          | Ok r => Ok ((n, c) :: r)
          end
      end
  end.

(** The response to the request a chain compiles to: one dictionary per
    node, keyed by its name, down to the value of the last field. *)
Definition response_for (sels : list Field) (leaf : pyval) : pyval :=
  fold_right (fun f v => VDict [(field_name f, v)]) leaf sels.

Definition is_dict (v : pyval) : bool :=
  match v with VDict _ => true | _ => false end.

(** What [get_value] does with the value the walk ends on. *)
Definition decode (self : Context) (return_type : pytype) (value : pyval)
    : result (outcome pyval) :=
  if is_None value && negb (is_bearable_None return_type)
  then Raise (InvalidQueryError null_response_msg)
  else returned (structure self return_type value).

(** The attributes [_struct] sets: one per slot that has a hint and occurs
    in the payload. *)
Fixpoint struct_slots (self : Context) (d : Dict.t pyval)
    (slots : list (string * option pytype)) : outcome (list (string * pyval)) :=
  match slots with
  | [] => Value []
  | (slot, hint) :: r =>
      match hint, Dict.get slot d with
      | Some t', Some x =>
          match structure self t' x with
          | Value y =>
              match struct_slots self d r with
              | Value ys => Value (Dict.set slot y ys)
              | Raises e => Raises e
              | Unmodelled => Unmodelled
              end
          | Raises e => Raises e
          | Unmodelled => Unmodelled
          end
      | _, _ => struct_slots self d r
      end
  end.

(** ** Resolution, step by step

    What [resolve_ids] is to reach, and what holds of the store while the
    tasks of the group run. *)

Section Resolution.
Context `{Collaborators}.

(** [list(v)] for a sequence the guard takes, the value itself otherwise. *)
Definition as_list (v : pyval) : pyval :=
  if is_id_type_sequence v then VList (py_iter v) else v.

Definition as_lists (d : Dict.t pyval) : Dict.t pyval :=
  map (fun kv => (fst kv, as_list (snd kv))) d.

(** The tasks one entry of a dictionary gives rise to. *)
Definition tasks_of_entry (pos : nat) (kv : string * pyval) : list task :=
  if is_id_type_sequence (snd kv) then start_seq pos (fst kv) 0 (py_iter (snd kv))
  else if is_id_type (snd kv) then [_resolve_id pos (fst kv) (snd kv)]
  else [].

(** The tasks the chain gives rise to, from position [pos] on, read off the
    dictionaries [ds] the store held at first. *)
Fixpoint tasks_from (ds : list (Dict.t pyval)) (pos : nat) (sels : list Field)
    : list task :=
  match sels with
  | [] => []
  | sel :: rest =>
      flat_map (tasks_of_entry pos) (default [] (ds !! field_args sel))
      ++ tasks_from ds (S pos) rest
  end.

(** The loop over one dictionary leaves it with the sequences made lists. *)
Definition listed (items d : Dict.t pyval) : Dict.t pyval :=
  fold_left
    (fun d kv =>
       if is_id_type_sequence (snd kv)
       then Dict.set (fst kv) (VList (py_iter (snd kv))) d
       else d)
    items d.

(** An element of a sequence, and an argument, once resolved. *)
Definition resolved_elem (x y : pyval) : Prop :=
  if is_id_type x then fetch_id x = Ok y else y = x.

Definition resolved (v c : pyval) : Prop :=
  if is_id_type_sequence v then
    exists l, c = VList l /\ Forall2 resolved_elem (py_iter v) l
  else if is_id_type v then fetch_id v = Ok c
  else c = v.

(** The slot a task writes: the dictionary, the key and, in a sequence, the
    index. *)
Definition task_target (sels : list Field) (t : task)
    : option (nat * string * option nat) :=
  match t with
  | _resolve_id pos k _ =>
      (fun sel => (field_args sel, k, None)) <$> sels !! pos
  | _resolve_seq_id pos idx k _ =>
      (fun sel => (field_args sel, k, Some idx)) <$> sels !! pos
  end.

Definition pending (sels : list Field) (ts : list task)
    (a : nat) (k : string) (o : option nat) : Prop :=
  exists t, t ∈ ts /\ task_target sels t = Some (a, k, o).

(** A slot while the tasks [ts] are still to run: resolved, or as it was
    with a task of [ts] to write it. *)
Definition elem_state (sels : list Field) (ts : list task) (a : nat) (k : string)
    (idx : nat) (x y : pyval) : Prop :=
  if is_id_type x
  then fetch_id x = Ok y \/ (y = x /\ pending sels ts a k (Some idx))
  else y = x.

Definition slot_state (sels : list Field) (ts : list task) (a : nat) (k : string)
    (v c : pyval) : Prop :=
  if is_id_type_sequence v then
    exists l, c = VList l /\ length l = length (py_iter v)
      /\ forall idx x y, py_iter v !! idx = Some x -> l !! idx = Some y ->
           elem_state sels ts a k idx x y
  else if is_id_type v then
    fetch_id v = Ok c \/ (c = v /\ pending sels ts a k None)
  else c = v.

(** A task started for a slot that the dictionaries [ds] held at first. *)
Definition task_valid (ds : list (Dict.t pyval)) (sels : list Field) (t : task)
    : Prop :=
  match t with
  | _resolve_id pos k v =>
      exists sel d, sels !! pos = Some sel /\ ds !! field_args sel = Some d
        /\ Dict.get k d = Some v
        /\ is_id_type_sequence v = false /\ is_id_type v = true
  | _resolve_seq_id pos idx k x =>
      exists sel d v, sels !! pos = Some sel /\ ds !! field_args sel = Some d
        /\ Dict.get k d = Some v
        /\ is_id_type_sequence v = true /\ py_iter v !! idx = Some x
        /\ is_id_type x = true
  end.

(** The store [hc] while the tasks [ts] are still to run, against the
    store [h0] as it was at first. *)
Definition resolving (h0 : heap) (sels : list Field) (ts : list task)
    (hc : heap) : Prop :=
  deques hc = deques h0
  /\ forall sel d, sel ∈ sels -> dicts h0 !! field_args sel = Some d ->
       exists dc, dicts hc !! field_args sel = Some dc
         /\ Forall2 (fun kv kvc =>
               fst kvc = fst kv
               /\ slot_state sels ts (field_args sel) (fst kv) (snd kv) (snd kvc))
              d dc.

(** The store [hc] while the tasks are being started: an entry is as it
    was, or is the list of what it was. *)
Definition semi (kv kvc : string * pyval) : Prop :=
  fst kvc = fst kv /\ (snd kvc = snd kv \/ snd kvc = as_list (snd kv)).

Definition starting (h0 hc : heap) : Prop :=
  deques hc = deques h0
  /\ length (dicts hc) = length (dicts h0)
  /\ forall a d, dicts h0 !! a = Some d ->
       exists dc, dicts hc !! a = Some dc /\ Forall2 semi d dc.

(** The store holds the dictionary of every node of the chain, with keys
    that are distinct, as those of a [dict] are. *)
Definition chain_held (h0 : heap) (sels : list Field) : Prop :=
  forall sel, sel ∈ sels ->
    exists d, dicts h0 !! field_args sel = Some d /\ NoDup (Dict.keys d).

(** The handle a task fetches the identifier of. *)
Definition task_value (t : task) : pyval :=
  match t with
  | _resolve_id _ _ v | _resolve_seq_id _ _ _ v => v
  end.

End Resolution.

(** ** Resolution, further

    What is left to resolve. *)

Section Settled.
Context `{Collaborators}.

(** An argument with nothing left to resolve: no handle, and no handle in
    it where the guard takes it for a sequence of handles (then a list, as
    [resolve_ids] leaves it). *)
Definition settled (v : pyval) : Prop :=
  is_id_type v = false
  /\ (is_id_type_sequence v = true ->
      exists l, v = VList l /\ Forall (fun x => is_id_type x = false) l).

Definition chain_settled (h : heap) (sels : list Field) : Prop :=
  forall sel d k v, sel ∈ sels -> dicts h !! field_args sel = Some d ->
    (k, v) ∈ d -> settled v.

(** A handle among the arguments of the chain: an argument, or an element
    of an argument the guard takes for a sequence. *)
Definition chain_handle (h : heap) (sels : list Field) (x : pyval) : Prop :=
  is_id_type x = true
  /\ exists sel d k v, sel ∈ sels /\ dicts h !! field_args sel = Some d
       /\ (k, v) ∈ d
       /\ ((is_id_type_sequence v = false /\ x = v)
           \/ (is_id_type_sequence v = true /\ x ∈ py_iter v)).

End Settled.

(** Collaborators whose every round trip times out. *)
Definition offline_collaborators : Collaborators :=
  {| dsl_field := fun _ => table_field sample_schema;
     dsl_select := fun _ _ _ => None;
     sequence_guard := forallb is_id_type;
     fetch_id := fun _ =>
       Raise (ExecuteTimeoutError "Request timed out."
                (mkExc [httpx_TimeoutException; httpx_RequestError] "timed out"));
     schedule := @rev task;
     session_execute := fun _ _ =>
       inl (mkExc [httpx_TimeoutException; httpx_RequestError] "timed out");
     _query_error_from_transport := fun _ _ => None;
     Scalar_is_str := true |}.

(** * Properties *)

(** Lists of distinct literal keys. *)
Ltac distinct_keys :=
  simpl;
  repeat (apply NoDup_cons_2;
          [rewrite ?not_elem_of_cons; repeat split;
           first [discriminate | apply not_elem_of_nil] |]);
  apply NoDup_nil_2.

(** ** The store *)

Lemma extends_refl h : extends h h.
Proof. split; reflexivity. Qed.

Lemma extends_trans h1 h2 h3 : extends h1 h2 -> extends h2 h3 -> extends h1 h3.
Proof. intros [A B] [C D]. split; etransitivity; eassumption. Qed.

Lemma extends_deque h h' r items :
  extends h h' -> deques h !! r = Some items -> deques h' !! r = Some items.
Proof. intros [[k ->] _] Hr. by apply lookup_app_l_Some. Qed.

Lemma extends_dict h h' r d :
  extends h h' -> dicts h !! r = Some d -> dicts h' !! r = Some d.
Proof. intros [_ [k ->]] Hr. by apply lookup_app_l_Some. Qed.

Lemma insert_last {A} (l : list A) (x y : A) :
  <[length l := x]> (l ++ [y]) = l ++ [x].
Proof.
  replace (length l) with (length l + 0) by lia.
  by rewrite insert_app_r.
Qed.

Lemma lookup_last {A} (l : list A) (x : A) : (l ++ [x]) !! length l = Some x.
Proof. by apply list_lookup_middle. Qed.

(** What one [select] does to the store. *)
Lemma select_run self type_name field_name args h sels :
  deques h !! selections self = Some sels ->
  select self type_name field_name args h =
    (Ok (replace_selections self (length (deques h))),
     {| deques := deques h ++ [sels ++ [mkField type_name field_name (length (dicts h)) []]];
        dicts := dicts h ++ [encode_args args] |}).
Proof.
  intros Hs.
  unfold select, deque_copy, deque_append, bind, dict_new, deque_read,
    deque_new, deque_write, ret; simpl.
  rewrite Hs; simpl. rewrite lookup_last; simpl.
  by rewrite insert_last.
Qed.

Lemma select_all_run calls : forall self h sels,
  deques h !! selections self = Some sels ->
  exists self' h' sels',
    select_all self calls h = (Ok self', h')
    /\ deques h' !! selections self' = Some (sels ++ sels')
    /\ length sels' = length calls
    /\ extends h h'.
Proof.
  induction calls as [|[[tn fn] args] rest IH]; intros self h sels Hs.
  - exists self, h, []. rewrite app_nil_r.
    split; [reflexivity|]. split; [exact Hs|]. split; [reflexivity|].
    apply extends_refl.
  - simpl. unfold bind. rewrite (select_run _ _ _ _ _ _ Hs).
    set (h1 := {| deques := _; dicts := _ |}).
    destruct (IH (replace_selections self (length (deques h))) h1
                (sels ++ [mkField tn fn (length (dicts h)) []]))
      as (self' & h' & sels' & Hrun & Hd & Hlen & Hext).
    { apply lookup_last. }
    exists self', h', (mkField tn fn (length (dicts h)) [] :: sels').
    rewrite Hrun. split; [reflexivity|]. split; [|split].
    + by rewrite <- app_assoc in Hd.
    + simpl. by rewrite Hlen.
    + eapply extends_trans; [|exact Hext]. split; by apply prefix_app_r.
Qed.

Lemma leaves_run type_name fields : forall acc h,
  leaves type_name fields acc h =
    (Ok (leaves_from type_name fields (length (dicts h)) acc),
     {| deques := deques h;
        dicts := dicts h ++ replicate (length fields) [] |}).
Proof.
  induction fields as [|[k v] rest IH]; intros acc h; simpl.
  - unfold ret. rewrite app_nil_r. by destruct h.
  - unfold bind, dict_new. rewrite IH; simpl.
    rewrite length_app, <- app_assoc; simpl.
    by replace (length (dicts h) + 1) with (S (length (dicts h))) by lia.
Qed.

Lemma select_multiple_run self type_name fields h init parent :
  deques h !! selections self = Some (init ++ [parent]) ->
  select_multiple self type_name fields h =
    (Ok (replace_selections self (length (deques h))),
     {| deques := deques h ++
          [init ++ [replace_children parent
                      (leaves_from type_name fields (length (dicts h)) [])]];
        dicts := dicts h ++ replicate (length fields) [] |}).
Proof.
  intros Hs.
  unfold select_multiple, deque_copy, deque_pop, deque_append, bind,
    deque_read, deque_new, deque_write, ret; simpl.
  rewrite Hs; simpl. rewrite lookup_last; simpl.
  rewrite last_snoc; simpl. rewrite insert_last, removelast_last.
  rewrite leaves_run; simpl. rewrite lookup_last; simpl.
  by rewrite insert_last.
Qed.

Lemma select_multiple_empty self type_name fields h :
  deques h !! selections self = Some [] ->
  select_multiple self type_name fields h =
    (Raise (IndexError "pop from an empty deque"),
     {| deques := deques h ++ [[]]; dicts := dicts h |}).
Proof.
  intros Hs.
  unfold select_multiple, deque_copy, deque_pop, bind, deque_read, deque_new,
    raise; simpl.
  rewrite Hs; simpl. by rewrite lookup_last.
Qed.

Lemma select_multiple_extends self type_name fields h sels r h' :
  deques h !! selections self = Some sels ->
  select_multiple self type_name fields h = (r, h') -> extends h h'.
Proof.
  intros Hs Hrun.
  destruct (last sels) as [parent|] eqn:Hl.
  - apply last_Some in Hl as [init ->].
    rewrite (select_multiple_run _ _ _ _ _ _ Hs) in Hrun.
    injection Hrun as _ <-. split; by apply prefix_app_r.
  - apply last_None in Hl as ->.
    rewrite (select_multiple_empty _ _ _ _ Hs) in Hrun.
    injection Hrun as _ <-. split; [by apply prefix_app_r | reflexivity].
Qed.

(** C1. [select] and [select_multiple] fork: whenever a context's chain is
    [sels], (1) [select] returns a new context whose chain is [sels] with one
    node more; (2) a sequence of N [select] calls returns a context whose
    chain is N nodes longer; (3) whatever [select_multiple] does, and in (1)
    and (2) as well, the chain of the originating context and every
    dictionary of arguments that existed before are afterwards what they
    were; (4) from a new root context N [select] calls give a chain of
    length N. *)
Theorem select_forks (self : Context) (h : heap) (sels : list Field) :
  deques h !! selections self = Some sels ->
  (forall type_name field_name args, exists self' h' node,
      select self type_name field_name args h = (Ok self', h')
      /\ deques h' !! selections self' = Some (sels ++ [node])
      /\ length (sels ++ [node]) = S (length sels)
      /\ deques h' !! selections self = Some sels
      /\ extends h h')
  /\ (forall calls, exists self' h' sels',
      select_all self calls h = (Ok self', h')
      /\ deques h' !! selections self' = Some sels'
      /\ length sels' = length sels + length calls
      /\ deques h' !! selections self = Some sels
      /\ extends h h')
  /\ (forall type_name fields r h',
      select_multiple self type_name fields h = (r, h') ->
      deques h' !! selections self = Some sels /\ extends h h')
  /\ (forall sess sch h0 calls, exists root h1 self' h' sels',
      new_context sess sch h0 = (Ok root, h1)
      /\ select_all root calls h1 = (Ok self', h')
      /\ deques h' !! selections self' = Some sels'
      /\ length sels' = length calls).
Proof.
  intros Hs. split; [|split; [|split]]; cycle 3.
  { intros sess sch h0 calls.
    destruct (select_all_run calls
                {| session := sess; schema := sch; selections := length (deques h0) |}
                {| deques := deques h0 ++ [[]]; dicts := dicts h0 |} [])
      as (self' & h' & sels' & Hrun & Hd & Hlen & _); [apply lookup_last|].
    by eexists _, _, self', h', sels'. }
  - intros tn fn args.
    eexists _, _, _. rewrite (select_run _ _ _ _ _ _ Hs).
    assert (Hext : extends h
      {| deques := deques h ++ [sels ++ [mkField tn fn (length (dicts h)) []]];
         dicts := dicts h ++ [encode_args args] |}).
    { split; by apply prefix_app_r. }
    split; [reflexivity|]. split; [apply lookup_last|].
    split; [rewrite length_app; simpl; lia|].
    split; [|exact Hext]. by apply (extends_deque h).
  - intros calls.
    destruct (select_all_run calls self h sels Hs)
      as (self' & h' & sels' & Hrun & Hd & Hlen & Hext).
    exists self', h', (sels ++ sels').
    split; [exact Hrun|]. split; [exact Hd|].
    split; [rewrite length_app; lia|].
    split; [by apply (extends_deque h) | exact Hext].
  - intros tn fields r h' Hrun.
    pose proof (select_multiple_extends _ _ _ _ _ _ _ Hs Hrun) as Hext.
    split; [by apply (extends_deque h) | exact Hext].
Qed.

(** ** Dictionaries *)

Lemma dict_set_fresh {V} (k : string) (v : V) (d : Dict.t V) :
  k ∉ Dict.keys d -> Dict.set k v d = d ++ [(k, v)].
Proof.
  induction d as [|[k' v'] d IH]; simpl; intros Hk; [done|].
  apply not_elem_of_cons in Hk as [Hne Hk].
  destruct (String.eqb_spec k k') as [->|_]; [done|].
  by rewrite IH.
Qed.

Lemma leaves_from_fresh type_name fields : forall a acc,
  NoDup (map fst fields) ->
  (forall k, k ∈ map fst fields -> k ∉ Dict.keys acc) ->
  leaves_from type_name fields a acc =
    acc ++ imap (fun i kv => (fst kv, mkField type_name (snd kv) (a + i) [])) fields.
Proof.
  induction fields as [|[k v] rest IH]; intros a acc Hnd Hfresh; simpl.
  - by rewrite app_nil_r.
  - apply NoDup_cons in Hnd as [Hk Hnd].
    rewrite dict_set_fresh by (apply Hfresh; simpl; left).
    rewrite IH; [|done|].
    + rewrite <- app_assoc; simpl. rewrite Nat.add_0_r. do 2 f_equal.
      apply imap_ext. intros i x _. simpl. do 2 f_equal. lia.
    + intros k' Hk'. unfold Dict.keys. rewrite map_app; simpl.
      intros Hin. apply elem_of_app in Hin as [Hin|Hin].
      * by apply (Hfresh k'); [simpl; right|].
      * apply list_elem_of_singleton in Hin as ->. done.
Qed.

(** C8. On a chain that ends in [parent], [select_multiple] puts in its
    place a node that differs from [parent] in its children only: they are,
    in the order of the field map, one leaf per entry, under the entry's
    alias, with the entry's wire name, an empty dictionary of arguments and
    no children. They do not depend on the children [parent] had: a second
    [select_multiple] leaves the aliases of its own field map and no others. *)
Theorem select_multiple_replaces (self : Context) (h : heap)
    (init : list Field) (parent : Field)
    (type_name : string) (fields : list (string * string)) :
  deques h !! selections self = Some (init ++ [parent]) ->
  NoDup (map fst fields) ->
  exists self' h' node,
    select_multiple self type_name fields h = (Ok self', h')
    /\ deques h' !! selections self' = Some (init ++ [node])
    /\ field_type_name node = field_type_name parent
    /\ field_name node = field_name parent
    /\ field_args node = field_args parent
    /\ Dict.keys (field_children node) = map fst fields
    /\ (forall i alias wire, fields !! i = Some (alias, wire) ->
          exists leaf,
            field_children node !! i = Some (alias, leaf)
            /\ field_type_name leaf = type_name
            /\ field_name leaf = wire
            /\ dicts h' !! field_args leaf = Some []
            /\ field_children leaf = [])
    /\ (forall type_name2 fields2, NoDup (map fst fields2) ->
          exists self'' h'' node2,
            select_multiple self' type_name2 fields2 h' = (Ok self'', h'')
            /\ deques h'' !! selections self'' = Some (init ++ [node2])
            /\ Dict.keys (field_children node2) = map fst fields2).
Proof.
  intros Hs Hnd.
  assert (Hkeys : forall tn fs a, NoDup (map fst fs) ->
            Dict.keys (leaves_from tn fs a []) = map fst fs).
  { intros tn fs a Hfs. rewrite leaves_from_fresh by (done || intros; apply not_elem_of_nil).
    simpl. unfold Dict.keys. clear Hfs. revert a.
    induction fs as [|[k v] fs IH]; intros a; [done|].
    rewrite imap_cons; simpl. f_equal.
    rewrite <- (IH (S a)). f_equal. apply imap_ext. intros i x _; simpl.
    do 2 f_equal. lia. }
  eexists _, _, _. rewrite (select_multiple_run _ _ _ _ _ _ Hs).
  split; [reflexivity|]. split; [apply lookup_last|].
  split; [done|]. split; [done|]. split; [done|].
  split; [by apply Hkeys|]. split.
  - intros i alias wire Hi. simpl.
    rewrite leaves_from_fresh by (done || intros; apply not_elem_of_nil).
    simpl. rewrite list_lookup_imap, Hi. simpl.
    eexists. split; [reflexivity|]. simpl.
    split; [done|]. split; [done|]. split; [|done].
    rewrite lookup_app_r; [|lia].
    replace (length (dicts h) + i - length (dicts h)) with i by lia.
    apply lookup_replicate_2. by apply lookup_lt_Some in Hi.
  - intros tn2 fields2 Hnd2. simpl.
    eexists _, _, _. erewrite select_multiple_run by apply lookup_last.
    split; [reflexivity|]. split; [apply lookup_last|]. simpl.
    by apply Hkeys.
Qed.

(** The chain [container] of a root context, and the field map
    [a="stdout", b="stderr"]. *)
Lemma select_multiple_replaces_witness :
  exists self' h' node,
    select_multiple (mkContext 0 0 0) "Container" [("a", "stdout"); ("b", "stderr")]
      {| deques := [[mkField "Query" "container" 0 []]]; dicts := [[]] |}
      = (Ok self', h')
    /\ deques h' !! selections self' = Some ([] ++ [node])
    /\ Dict.keys (field_children node) = ["a"; "b"].
Proof.
  destruct (select_multiple_replaces (mkContext 0 0 0)
              {| deques := [[mkField "Query" "container" 0 []]]; dicts := [[]] |}
              [] (mkField "Query" "container" 0 []) "Container"
              [("a", "stdout"); ("b", "stderr")])
    as (self' & h' & node & Hrun & Hd & _ & _ & _ & Hk & _).
  - reflexivity.
  - distinct_keys.
  - exists self', h', node. auto.
Defined.

(** A root context and three [select] calls. *)
Lemma select_forks_witness :
  exists self' h' sels',
    select_all (mkContext 0 0 0)
      [("Query", "container", []); ("Container", "from", []); ("Container", "id", [])]
      {| deques := [[]]; dicts := [] |} = (Ok self', h')
    /\ deques h' !! selections self' = Some sels'
    /\ length sels' = 0 + 3.
Proof.
  destruct (select_forks (mkContext 0 0 0) {| deques := [[]]; dicts := [] |} []
              eq_refl) as (_ & Hall & _).
  destruct (Hall [("Query", "container", []); ("Container", "from", []);
                  ("Container", "id", [])])
    as (self' & h' & sels' & Hrun & Hd & Hlen & _).
  exists self', h', sels'. auto.
Defined.

(** ** Compiling *)

Lemma fold_collapse (later : list Field) : forall acc,
  fold_left _collapse later acc = fold_left (fun c f => add_child f c) later acc.
Proof. reflexivity. Qed.

(** [reduce] over the reversed chain is the right fold. *)
Lemma collapse_nest (first : Field) (rest : list Field) :
  reduce _collapse (rev (first :: rest)) = Some (nest first rest).
Proof.
  revert first. induction rest as [|next rest IH]; intros first; [done|].
  specialize (IH next). simpl in *.
  destruct (rev rest ++ [next]) as [|x xs] eqn:E.
  { by destruct (rev rest). }
  simpl in *. rewrite fold_left_app; simpl.
  injection IH as ->. done.
Qed.


Section Compiling.
Context `{Collaborators}.

Lemma to_dsl_unfold sch ds f :
  to_dsl sch ds f =
    match ds !! field_args f with
    | None => Raise BadRef
    | Some kwargs =>
        match dsl_field sch (field_type_name f) (field_name f) kwargs with
        | Some e => Raise (schema_exn e)
        | None =>
            match to_dsl_each sch ds (field_children f) with
            | Raise e => Raise e
            | Ok [] => Ok (mkDSL (field_type_name f) (field_name f) kwargs [])
            | Ok sub =>
                match dsl_select sch
                        (mkDSL (field_type_name f) (field_name f) kwargs []) sub with
                | Some e => Raise (schema_exn e)
                | None => Ok (mkDSL (field_type_name f) (field_name f) kwargs sub)
                end
            end
        end
    end.
Proof.
  destruct f as [tn n a ch]; simpl.
  destruct (ds !! a) as [kw|]; [|done].
  destruct (dsl_field sch tn n kw); [done|].
  destruct ch as [|[k c] ch]; [done|].
  match goal with
  | |- context [match ?X with Ok r => Ok ((k, _) :: r) | Raise e => _ end] =>
      assert (Heach : X = to_dsl_each sch ds ch)
  end.
  { generalize ch. intros l. induction l as [|[k' c'] l IH]; [done|].
    simpl. by rewrite IH. }
  rewrite Heach. simpl.
  by destruct (to_dsl sch ds c), (to_dsl_each sch ds ch).
Qed.


Lemma nest_name first rest : field_name (nest first rest) = field_name first.
Proof. by destruct rest. Qed.

(** Rendering a node that has another node for its only child. *)
Lemma to_dsl_child sch ds f child :
  to_dsl sch ds (add_child f child) =
    match ds !! field_args f with
    | None => Raise BadRef
    | Some kwargs =>
        match dsl_field sch (field_type_name f) (field_name f) kwargs with
        | Some e => Raise (schema_exn e)
        | None =>
            match to_dsl sch ds child with
            | Raise e => Raise e
            | Ok c =>
                match dsl_select sch
                        (mkDSL (field_type_name f) (field_name f) kwargs [])
                        [(field_name child, c)] with
                | Some e => Raise (schema_exn e)
                | None =>
                    Ok (mkDSL (field_type_name f) (field_name f) kwargs
                          [(field_name child, c)])
                end
            end
        end
    end.
Proof.
  rewrite (to_dsl_unfold sch ds (add_child f child)). simpl.
  destruct (ds !! field_args f) as [kw|]; [|done].
  destruct (dsl_field sch _ _ kw); [done|].
  by destruct (to_dsl sch ds child).
Qed.





(** C2. The chain [container], [from(image: "alpine")], [id], under a
    schema that binds the three fields with these arguments and accepts the
    two sub-selections: the three nodes collapse to the first with the
    second as its only child and the third as the only child of the second;
    [build] renders [container { from(image: "alpine") { id } }]; and
    [get_value] follows the three names through the response down to
    ["abc123"], which it returns for the expected type [str]. *)
Theorem container_from_id_end_to_end :
  dsl_field 0 "Query" "container" [] = None ->
  dsl_field 0 "Container" "from" [("image", VStr "alpine")] = None ->
  dsl_field 0 "Container" "id" [] = None ->
  dsl_select 0 (mkDSL "Container" "from" [("image", VStr "alpine")] [])
    [("id", mkDSL "Container" "id" [] [])] = None ->
  dsl_select 0 (mkDSL "Query" "container" [] [])
    [("from", mkDSL "Container" "from" [("image", VStr "alpine")]
                [("id", mkDSL "Container" "id" [] [])])] = None ->
  exists ctx h n1 n2 n3,
    container_from_id empty_heap = (Ok ctx, h)
    /\ deques h !! selections ctx = Some [n1; n2; n3]
    /\ reduce _collapse (rev [n1; n2; n3]) = Some (add_child n1 (add_child n2 n3))
    /\ build ctx h =
         (Ok (mkDSL "Query" "container" []
                [("from",
                  mkDSL "Container" "from" [("image", VStr "alpine")]
                    [("id", mkDSL "Container" "id" [] [])])]), h)
    /\ walk [n1; n2; n3] container_from_id_payload = Ok (VStr "abc123")
    /\ get_value ctx container_from_id_payload TStr h = (Ok (Value (VStr "abc123")), h).
Proof.
  intros Hc Hf Hi Hsf Hsc.
  eexists _, _, _, _, _.
  split; [by lazy|]. split; [by lazy|]. split; [by lazy|].
  split; [|split; by lazy].
  unfold build, bind, deque_read. simpl.
  by rewrite Hc, Hf, Hi, Hsf, Hsc.
Qed.

End Compiling.



(** The schema of the sample binds the three fields. *)
Lemma container_from_id_end_to_end_witness :
  exists ctx h n1 n2 n3,
    container_from_id empty_heap = (Ok ctx, h)
    /\ deques h !! selections ctx = Some [n1; n2; n3]
    /\ reduce _collapse (rev [n1; n2; n3]) = Some (add_child n1 (add_child n2 n3))
    /\ build (H := sample_collaborators (inr container_from_id_payload)) ctx h =
         (Ok (mkDSL "Query" "container" []
                [("from",
                  mkDSL "Container" "from" [("image", VStr "alpine")]
                    [("id", mkDSL "Container" "id" [] [])])]), h)
    /\ walk [n1; n2; n3] container_from_id_payload = Ok (VStr "abc123")
    /\ get_value ctx container_from_id_payload TStr h = (Ok (Value (VStr "abc123")), h).
Proof.
  apply (container_from_id_end_to_end
           (H := sample_collaborators (inr container_from_id_payload)));
    reflexivity.
Defined.

(** ** Encoding arguments *)

Lemma dict_get_set {V} (k k' : string) (v : V) (d : Dict.t V) :
  Dict.get k (Dict.set k' v d) = if String.eqb k k' then Some v else Dict.get k d.
Proof.
  induction d as [|[k0 v0] d IH]; simpl.
  - by destruct (String.eqb k k').
  - destruct (String.eqb_spec k' k0) as [->|Hne]; simpl.
    + by destruct (String.eqb k k0).
    + rewrite IH. destruct (String.eqb_spec k k0) as [->|_]; [|done].
      destruct (String.eqb_spec k0 k') as [->|_]; done.
Qed.

(** The comprehension keeps, for each name, the last argument that passes
    the test. *)
Lemma encode_args_get (k : string) (args : list Arg) : forall acc,
  Dict.get k
    (fold_left (fun d kv => Dict.set (fst kv) (snd kv) d)
       (map (fun arg => (arg_name arg, as_input arg))
          (List.filter (fun arg => negb (py_is (arg_value arg) (arg_default arg))) args))
       acc)
  = match last (List.filter
                  (fun arg => String.eqb k (arg_name arg)
                              && negb (py_is (arg_value arg) (arg_default arg)))
                  args) with
    | Some arg => Some (as_input arg)
    | None => Dict.get k acc
    end.
Proof.
  induction args as [|a args IH]; intros acc; [done|]. simpl.
  destruct (py_is (arg_value a) (arg_default a)); simpl.
  - rewrite andb_false_r. apply IH.
  - rewrite andb_true_r, IH; simpl. rewrite dict_get_set.
    destruct (String.eqb k (arg_name a)); [|done].
    rewrite last_cons. by destruct (last _).
Qed.

(** C3, with the test the code makes. The test of [select] is identity,
    not equality: the
    dictionary of the new node holds a name exactly when some argument of
    that name has a value that is not the very object given as its default,
    and holds for it the encoding of the last such argument: the fields of
    a structured input, the list of the fields of each element of a
    sequence of structured inputs, and otherwise the value unchanged. *)
Theorem select_keeps_non_default (self : Context) (h : heap) (sels : list Field)
    (type_name field_name : string) (args : list Arg) :
  deques h !! selections self = Some sels ->
  exists self' h' node,
    select self type_name field_name args h = (Ok self', h')
    /\ deques h' !! selections self' = Some (sels ++ [node])
    /\ dicts h' !! field_args node = Some (encode_args args)
    /\ (forall k,
          Dict.get k (encode_args args) =
            as_input <$>
              last (List.filter
                      (fun arg => String.eqb k (arg_name arg)
                                  && negb (py_is (arg_value arg) (arg_default arg)))
                      args))
    /\ (forall arg,
          as_input arg =
            match content (arg_value arg) with
            | VInput _ fields => VDict (map (fun kv => (fst kv, asdict (snd kv))) fields)
            | VList items | VTuple items =>
                if forallb InputHint_is_bearable items
                then VList (map asdict items)
                else content (arg_value arg)
            | v => v
            end).
Proof.
  intros Hs. eexists _, _, _. rewrite (select_run _ _ _ _ _ _ Hs).
  split; [reflexivity|]. split; [apply lookup_last|].
  split; [apply lookup_last|]. split.
  - intros k. unfold encode_args, Dict.of_items. rewrite encode_args_get.
    by destruct (last _).
  - intros [n [a v] d]. unfold as_input; simpl. by destruct v.
Qed.

(** A root context and [from(image: "alpine", platform: None)] where
    [platform] defaults to [None]. *)
Lemma select_keeps_non_default_witness :
  exists self' h' node,
    select (mkContext 0 0 0) "Container" "from"
      [Arg2 "image" alpine; mkArg "platform" (mkObj 2 VNone) (mkObj 2 VNone)]
      {| deques := [[]]; dicts := [] |} = (Ok self', h')
    /\ deques h' !! selections self' = Some ([] ++ [node])
    /\ dicts h' !! field_args node = Some [("image", VStr "alpine")].
Proof.
  destruct (select_keeps_non_default (mkContext 0 0 0)
              {| deques := [[]]; dicts := [] |} [] "Container" "from"
              [Arg2 "image" alpine; mkArg "platform" (mkObj 2 VNone) (mkObj 2 VNone)]
              eq_refl)
    as (self' & h' & node & Hrun & Hd & Ha & _).
  exists self', h', node. auto.
Defined.

(** C3 as stated fails where equality and identity part: two lists that are
    equal and are not the same object, as in [Arg("exclude", [], [])]. The
    argument equals its default and is kept. *)
Lemma equal_to_default_kept_counterexample :
  let arg := mkArg "exclude" (mkObj 1 (VList [])) (mkObj 2 (VList [])) in
  content (arg_value arg) = content (arg_default arg)
  /\ Dict.get "exclude" (encode_args [arg]) = Some (VList []).
Proof. split; reflexivity. Qed.

(** ** Decoding *)

Lemma structure_None self t :
  is_bearable_None t = true -> is_NoneType t = false ->
  structure self t VNone = Value VNone.
Proof. destruct t; try done. simpl. by intros _ ->. Qed.

Lemma structure_NoneType self t value :
  is_NoneType t = true ->
  structure self t value
    = Raises (StructureHandlerNotFoundError unsupported_NoneType_msg).
Proof. destruct t; try done. simpl. by intros ->. Qed.

Lemma walk_app pre rest : forall value d,
  walk pre value = Ok (VDict d) -> walk (pre ++ rest) value = walk rest (VDict d).
Proof.
  induction pre as [|f pre IH]; intros value d Hw; simpl in *.
  - by injection Hw as ->.
  - destruct value as [| | | | | | | |entries| |]; try done.
    destruct (Dict.get (field_name f) entries); [by apply IH | done].
Qed.

(** C7, without the success the converter does not grant. When the walk
    ends on [None], [get_value] raises [InvalidQueryError] with the message
    "Required field got a null response. Check if parent fields are valid."
    exactly when the expected type does not accept [None]. When it does,
    [get_value] returns [None] for [Any] and for [Optional[T]]; for
    [NoneType], which accepts [None] as well, the converter has no handler
    and [get_value] raises its [StructureHandlerNotFoundError]. *)
Theorem get_value_null (self : Context) (h : heap) (sels : list Field)
    (value : pyval) (return_type : pytype) :
  deques h !! selections self = Some sels ->
  walk sels value = Ok VNone ->
  (get_value self value return_type h =
     (Raise (InvalidQueryError
        "Required field got a null response. Check if parent fields are valid."), h)
   <-> is_bearable_None return_type = false)
  /\ (is_bearable_None return_type = true -> is_NoneType return_type = false ->
      get_value self value return_type h = (Ok (Value VNone), h))
  /\ (is_NoneType return_type = true ->
      get_value self value return_type h =
        (Raise (StructureHandlerNotFoundError
           "Unsupported type: <class 'NoneType'>. Register a structure hook for it."),
         h)).
Proof.
  intros Hs Hw. unfold get_value, bind, deque_read. rewrite Hs, Hw. simpl.
  destruct (is_bearable_None return_type) eqn:Hb; simpl.
  - destruct (is_NoneType return_type) eqn:Hn.
    + rewrite (structure_NoneType _ _ _ Hn). simpl.
      split; [split; discriminate|]. split; [discriminate | done].
    + rewrite (structure_None _ _ Hb Hn). simpl.
      split; [split; discriminate|]. split; [done | discriminate].
  - split; [done|]. split; [discriminate|].
    intros Hn. destruct return_type; discriminate.
Qed.

(** The chain [container], [stdout] and a response whose [stdout] is null,
    for the expected types [str] and [Optional[str]]. *)
Lemma get_value_null_witness :
  let h := {| deques := [[mkField "Query" "container" 0 [];
                          mkField "Container" "stdout" 1 []]];
              dicts := [[]; []] |} in
  let value := VDict [("container", VDict [("stdout", VNone)])] in
  (get_value (mkContext 0 0 0) value TStr h =
     (Raise (InvalidQueryError
        "Required field got a null response. Check if parent fields are valid."), h)
   <-> is_bearable_None TStr = false)
  /\ (is_bearable_None (TOptional TStr) = true ->
      is_NoneType (TOptional TStr) = false ->
      get_value (mkContext 0 0 0) value (TOptional TStr) h = (Ok (Value VNone), h)).
Proof.
  intros h value. split.
  - apply (get_value_null (mkContext 0 0 0) h
             [mkField "Query" "container" 0 []; mkField "Container" "stdout" 1 []]
             value TStr); reflexivity.
  - apply (get_value_null (mkContext 0 0 0) h
             [mkField "Query" "container" 0 []; mkField "Container" "stdout" 1 []]
             value (TOptional TStr)); reflexivity.
Defined.

(** C7 as stated fails at the expected type [NoneType]: it accepts [None],
    [get_value] does not raise the error of a null response, and decoding
    does not yield [None] but raises. *)
Lemma get_value_NoneType_counterexample :
  let h := {| deques := [[mkField "Query" "container" 0 [];
                          mkField "Container" "stdout" 1 []]];
              dicts := [[]; []] |} in
  let value := VDict [("container", VDict [("stdout", VNone)])] in
  deques h !! selections (mkContext 0 0 0)
    = Some [mkField "Query" "container" 0 []; mkField "Container" "stdout" 1 []]
  /\ walk [mkField "Query" "container" 0 []; mkField "Container" "stdout" 1 []] value
     = Ok VNone
  /\ is_bearable_None TNoneType = true
  /\ get_value (mkContext 0 0 0) value TNoneType h
     = (Raise (StructureHandlerNotFoundError
          "Unsupported type: <class 'NoneType'>. Register a structure hook for it."),
        h)
  /\ get_value (mkContext 0 0 0) value TNoneType h <> (Ok (Value VNone), h).
Proof. intros h value. repeat split; [reflexivity.. | discriminate]. Qed.

(** C10. When the walk has followed the nodes before [f] down to a
    dictionary that has no entry for the name of [f], [get_value] ends in
    the [KeyError] of that name: the loop leaves only on a value that is not
    a dictionary, and nothing catches the failed lookup. *)
Theorem get_value_key_error (self : Context) (h : heap)
    (pre : list Field) (f : Field) (post : list Field)
    (value : pyval) (d : list (string * pyval)) (return_type : pytype) :
  deques h !! selections self = Some (pre ++ f :: post) ->
  walk pre value = Ok (VDict d) ->
  Dict.get (field_name f) d = None ->
  get_value self value return_type h = (Raise (KeyError (field_name f)), h).
Proof.
  intros Hs Hw Hk. unfold get_value, bind, deque_read. rewrite Hs.
  rewrite (walk_app _ _ _ _ Hw). simpl. by rewrite Hk.
Qed.

(** The chain [container], [stdout] and a response that has no [stdout]
    under [container]. *)
Lemma get_value_key_error_witness :
  let h := {| deques := [[mkField "Query" "container" 0 [];
                          mkField "Container" "stdout" 1 []]];
              dicts := [[]; []] |} in
  get_value (mkContext 0 0 0) (VDict [("container", VDict [("stderr", VStr "")])])
    TStr h = (Raise (KeyError "stdout"), h).
Proof.
  intros h.
  apply (get_value_key_error (mkContext 0 0 0) h
           [mkField "Query" "container" 0 []] (mkField "Container" "stdout" 1 []) []
           (VDict [("container", VDict [("stderr", VStr "")])])
           [("stderr", VStr "")] TStr); reflexivity.
Defined.

Section Collaborating.
Context `{Collaborators}.

(** ** Failures of the session *)

(** C6. When the session fails with [e], [execute] ends in the error of
    the first [except] clause that takes [e]: a timeout gives
    [ExecuteTimeoutError] with the hint to raise [execute_timeout]; a
    request error, a closed transport and a protocol or server error each
    give [TransportError] with [e] as its cause; a query error gives the
    [QueryError] the mapper derives from [e] and the document, and [e]
    itself when the mapper derives none. *)
Theorem execute_maps_failures (self : Context) (return_type : option pytype)
    (h h1 : heap) (q : Document) (e : pyexc) :
  resolve_ids self h = (Ok tt, h1) ->
  query self h1 = (Ok q, h1) ->
  session_execute (session self) q = inl e ->
  exists err,
    execute self return_type h = (Raise err, h1)
    /\ (isinstance e httpx_TimeoutException = true ->
        err = ExecuteTimeoutError
                ("Request timed out. Try setting a higher value in 'execute_timeout' "
                 ++ "config for this `dagger.Connection()`.") e)
    /\ (isinstance e httpx_TimeoutException = false ->
        isinstance e httpx_RequestError = true ->
        err = TransportError ("Failed to make request: " ++ exc_str e) e)
    /\ (isinstance e httpx_TimeoutException = false ->
        isinstance e httpx_RequestError = false ->
        isinstance e gql_TransportClosed = true ->
        err = TransportError
                ("Connection to engine has been closed. Make sure you're "
                 ++ "calling the API within a `dagger.Connection()` context.") e)
    /\ (isinstance e httpx_TimeoutException = false ->
        isinstance e httpx_RequestError = false ->
        isinstance e gql_TransportClosed = false ->
        isinstance e gql_TransportProtocolError = true
        \/ isinstance e gql_TransportServerError = true ->
        err = TransportError ("Unexpected response from engine: " ++ exc_str e) e)
    /\ (isinstance e httpx_TimeoutException = false ->
        isinstance e httpx_RequestError = false ->
        isinstance e gql_TransportClosed = false ->
        isinstance e gql_TransportProtocolError = false ->
        isinstance e gql_TransportServerError = false ->
        isinstance e gql_TransportQueryError = true ->
        (forall error, _query_error_from_transport e q = Some error ->
           err = QueryError error e)
        /\ (_query_error_from_transport e q = None -> err = Reraised e)).
Proof.
  intros Hr Hq He. exists (on_failure e q).
  split.
  { unfold execute, bind. rewrite Hr, Hq, He. reflexivity. }
  unfold on_failure.
  split; [by intros ->|]. split; [by intros -> ->|].
  split; [by intros -> -> ->|].
  split. { intros -> -> -> [-> | ->]; [done|]. by rewrite orb_true_r. }
  intros -> -> -> -> -> ->. simpl. split.
  - by intros error ->.
  - by intros ->.
Qed.

(** ** Objects from identifiers *)

(** C9. [_get_object_instance] raises [TypeError] when the class does not
    support construction from an identifier, and when the class of the
    identifier is not the identifier class of the target and the
    identifier is not a [str]; otherwise it returns an object of the
    target class on a context whose chain is that of the root followed by
    one node: the field of [Query] that loads by identifier, with the
    identifier as its argument [id]. The chain of a root made by
    [from_context] is empty. *)
Theorem get_object_instance_validates (self : Root) (id_ : pyobj)
    (cls : pyclass) (h : heap) (sels : list Field) :
  deques h !! selections (_ctx self) = Some sels ->
  (is_id_type_subclass cls = false ->
     exists msg, _get_object_instance self id_ cls h = (Raise (TypeError msg), h))
  /\ (is_id_type_subclass cls = true ->
      type_of (content id_) <> _id_type cls ->
      isinstance_str (content id_) = false ->
      exists msg, _get_object_instance self id_ cls h = (Raise (TypeError msg), h))
  /\ (is_id_type_subclass cls = true ->
      type_of (content id_) = _id_type cls \/ isinstance_str (content id_) = true ->
      exists ctx h' node,
        _get_object_instance self id_ cls h = (Ok (VHandle (cls_name cls) ctx []), h')
        /\ deques h' !! selections ctx = Some (sels ++ [node])
        /\ field_type_name node = "Query"
        /\ field_name node = _from_id_query_field cls
        /\ field_children node = []
        /\ dicts h' !! field_args node = Some (encode_args [Arg2 "id" id_])
        /\ (content id_ <> VMissing ->
            InputHint_is_bearable (content id_) = false ->
            InputSeqHint_is_bearable (content id_) = false ->
            encode_args [Arg2 "id" id_] = [("id", content id_)]))
  /\ (forall ctx h0, exists root,
        from_context ctx h0 = (Ok root, {| deques := deques h0 ++ [[]]; dicts := dicts h0 |})
        /\ (deques h0 ++ [[]]) !! selections (_ctx root) = Some []).
Proof.
  intros Hs. unfold _get_object_instance.
  split; [by intros ->; eexists|].
  split.
  { intros -> Ht ->. apply String.eqb_neq in Ht. rewrite Ht. by eexists. }
  split.
  - intros -> Hok.
    assert (negb (String.eqb (type_of (content id_)) (_id_type cls))
            && negb (isinstance_str (content id_)) = false) as ->.
    { destruct Hok as [->| ->]; [by rewrite String.eqb_refl | by rewrite andb_false_r]. }
    simpl. unfold bind, _select. rewrite (select_run _ _ _ _ _ _ Hs).
    eexists _, _, _. split; [reflexivity|]. split; [apply lookup_last|].
    split; [done|]. split; [done|]. split; [done|].
    split; [apply lookup_last|].
    intros Hm Hi Hseq. destruct id_ as [a v].
    unfold encode_args, as_input, py_is; simpl in *.
    destruct v; simpl in *; try done; by rewrite Hseq.
  - intros ctx h0. eexists. split; [reflexivity|]. apply lookup_last.
Qed.

End Collaborating.

(** The session fails with a read timeout, which is a request error as
    well; the chain is [container]. *)
Lemma execute_maps_failures_witness :
  let e := mkExc [httpx_TimeoutException; httpx_RequestError] "timed out" in
  let h := {| deques := [[mkField "Query" "container" 0 []]]; dicts := [[]] |} in
  exists err,
    execute (H := sample_collaborators (inl e)) (mkContext 0 0 0) (Some TStr) h
      = (Raise err, h)
    /\ err = ExecuteTimeoutError
               ("Request timed out. Try setting a higher value in 'execute_timeout' "
                ++ "config for this `dagger.Connection()`.") e.
Proof.
  intros e h.
  destruct (execute_maps_failures (H := sample_collaborators (inl e))
              (mkContext 0 0 0) (Some TStr) h h
              (DSLQuery (mkDSL "Query" "container" [] [])) e
              eq_refl eq_refl eq_refl)
    as (err & Hrun & Ht & _).
  exists err. split; [exact Hrun | by apply Ht].
Defined.

(** A new root, the class [Container] and an identifier of its identifier
    class. *)
Lemma get_object_instance_validates_witness :
  let H := sample_collaborators (inr VNone) in
  let cls := mkClass "Container" true "ContainerID" "loadContainerFromID" in
  let id_ := mkObj 1 (VScalar "ContainerID" "abc123") in
  exists ctx h' node,
    _get_object_instance (mkRoot (mkContext 0 0 0)) id_ cls
      {| deques := [[]]; dicts := [] |}
      = (Ok (VHandle "Container" ctx []), h')
    /\ deques h' !! selections ctx = Some ([] ++ [node])
    /\ field_name node = "loadContainerFromID"
    /\ dicts h' !! field_args node = Some [("id", VScalar "ContainerID" "abc123")].
Proof.
  intros H cls id_.
  destruct (get_object_instance_validates (mkRoot (mkContext 0 0 0)) id_ cls
              {| deques := [[]]; dicts := [] |} [] eq_refl)
    as (_ & _ & Hok & _).
  destruct (Hok eq_refl (or_introl eq_refl))
    as (ctx & h' & node & Hrun & Hd & _ & Hn & _ & Ha & _).
  exists ctx, h', node. auto.
Defined.

Section Resolving.
Context `{Collaborators}.

(** ** Resolution: starting the tasks *)

Lemma is_id_type_sequence_as_list v :
  is_id_type_sequence (as_list v) = is_id_type_sequence v.
Proof.
  unfold as_list. destruct (is_id_type_sequence v) eqn:E; [|done].
  by destruct v.
Qed.

Lemma py_iter_as_list v : py_iter (as_list v) = py_iter v.
Proof.
  unfold as_list. destruct (is_id_type_sequence v) eqn:E; [|done].
  by destruct v.
Qed.

Lemma as_list_idem v : as_list (as_list v) = as_list v.
Proof.
  unfold as_list at 1.
  rewrite is_id_type_sequence_as_list, py_iter_as_list.
  unfold as_list. by destruct (is_id_type_sequence v).
Qed.

Lemma tasks_of_entry_as_list pos k v :
  tasks_of_entry pos (k, as_list v) = tasks_of_entry pos (k, v).
Proof.
  unfold tasks_of_entry; simpl.
  rewrite is_id_type_sequence_as_list, py_iter_as_list.
  unfold as_list. by destruct (is_id_type_sequence v).
Qed.

Lemma dict_set_middle {V} (k : string) (x c : V) (pre post : Dict.t V) :
  k ∉ Dict.keys pre ->
  Dict.set k x (pre ++ (k, c) :: post) = pre ++ (k, x) :: post.
Proof.
  induction pre as [|[k' v'] pre IH]; simpl; intros Hk.
  - by rewrite String.eqb_refl.
  - apply not_elem_of_cons in Hk as [Hne Hk].
    destruct (String.eqb_spec k k') as [->|_]; [done|].
    by rewrite IH.
Qed.

Lemma listed_as_lists (items : Dict.t pyval) : forall pre,
  NoDup (Dict.keys (pre ++ items)) ->
  listed items (pre ++ items) = pre ++ as_lists items.
Proof.
  induction items as [|[k v] items IH]; intros pre Hnd; [done|].
  assert (Hk : k ∉ Dict.keys pre).
  { unfold Dict.keys in *. rewrite map_app in Hnd. simpl in Hnd.
    apply NoDup_app in Hnd as (_ & Hd & _). intros Hin.
    apply (Hd k Hin). left. }
  unfold listed in *. simpl.
  replace (as_list v) with (if is_id_type_sequence v then VList (py_iter v) else v)
    by done.
  destruct (is_id_type_sequence v).
  - rewrite dict_set_middle by done.
    rewrite (cons_middle _ pre items), app_assoc, IH.
    + by rewrite <- app_assoc.
    + rewrite <- app_assoc. simpl. revert Hnd. unfold Dict.keys.
      by rewrite !map_app.
  - rewrite (cons_middle _ pre items), app_assoc, IH.
    + by rewrite <- app_assoc.
    + by rewrite <- app_assoc.
Qed.

Lemma start_args_run pos sel items : forall hc d,
  dicts hc !! field_args sel = Some d ->
  start_args pos sel items hc =
    (Ok (flat_map (tasks_of_entry pos) items),
     {| deques := deques hc;
        dicts := <[field_args sel := listed items d]> (dicts hc) |}).
Proof.
  induction items as [|[k v] items IH]; intros hc d Hd.
  - simpl. unfold ret, listed. simpl. rewrite list_insert_id by done. by destruct hc.
  - simpl. unfold bind, tasks_of_entry at 1. simpl.
    destruct (is_id_type_sequence v) eqn:E.
    + assert (Hlt : field_args sel < length (dicts hc)) by by apply lookup_lt_Some in Hd.
      unfold dict_read, dict_write, ret. rewrite Hd. simpl.
      rewrite list_lookup_insert_eq by done.
      rewrite dict_get_set, String.eqb_refl. simpl.
      erewrite IH; simpl; [|by apply list_lookup_insert_eq].
      by rewrite list_insert_insert_eq.
    + destruct (is_id_type v); unfold ret; by erewrite IH.
Qed.

Lemma semi_keys d dc : Forall2 semi d dc -> Dict.keys dc = Dict.keys d.
Proof.
  induction 1 as [|[k v] [k' c] d dc [Hk _] _ IH]; [done|].
  simpl in *. by rewrite Hk, IH.
Qed.

Lemma semi_as_lists d dc : Forall2 semi d dc -> as_lists dc = as_lists d.
Proof.
  induction 1 as [|[k v] [k' c] d dc [Hk Hv] _ IH]; [done|].
  simpl in *. rewrite IH, Hk. do 2 f_equal.
  destruct Hv as [->| ->]; [done | apply as_list_idem].
Qed.

Lemma semi_tasks pos d dc :
  Forall2 semi d dc ->
  flat_map (tasks_of_entry pos) dc = flat_map (tasks_of_entry pos) d.
Proof.
  induction 1 as [|[k v] [k' c] d dc [Hk Hv] _ IH]; [done|].
  simpl in *. rewrite IH, Hk. f_equal.
  destruct Hv as [->| ->]; [done | apply tasks_of_entry_as_list].
Qed.

Lemma semi_to_as_lists d : Forall2 semi d (as_lists d).
Proof.
  induction d as [|[k v] d IH]; [constructor|].
  constructor; [|done]. split; [done | by right].
Qed.

Lemma semi_refl d : Forall2 semi d d.
Proof.
  induction d as [|[k v] d IH]; [constructor|].
  constructor; [|done]. split; [done | by left].
Qed.

Lemma starting_refl h0 : starting h0 h0.
Proof.
  split; [done|]. split; [done|].
  intros a d Hd. exists d. split; [done | apply semi_refl].
Qed.

Lemma start_all_run (h0 : heap) (rest : list Field) : forall pos hc visited,
  starting h0 hc ->
  (forall sel, sel ∈ rest ->
     exists d, dicts h0 !! field_args sel = Some d /\ NoDup (Dict.keys d)) ->
  (forall a d, a ∈ visited -> dicts h0 !! a = Some d ->
     dicts hc !! a = Some (as_lists d)) ->
  exists hc',
    start_all pos rest hc = (Ok (tasks_from (dicts h0) pos rest), hc')
    /\ starting h0 hc'
    /\ (forall a d, a ∈ visited ++ map field_args rest -> dicts h0 !! a = Some d ->
          dicts hc' !! a = Some (as_lists d)).
Proof.
  induction rest as [|sel rest IH]; intros pos hc visited Hst Hwf Hvis.
  - exists hc. rewrite app_nil_r. done.
  - destruct (Hwf sel) as (d & Hd & Hnd); [left|].
    destruct Hst as (Hdq & Hlen & Hsemi).
    destruct (Hsemi _ _ Hd) as (dc & Hdc & Hrel).
    simpl. unfold bind at 1, dict_read at 1. rewrite Hdc.
    unfold bind at 1. rewrite (start_args_run _ _ _ _ _ Hdc).
    assert (Hl : listed dc dc = as_lists dc).
    { apply (listed_as_lists dc []). simpl. by rewrite (semi_keys d). }
    rewrite Hl. simpl. rewrite (semi_as_lists d dc Hrel), (semi_tasks pos d dc Hrel).
    set (hc1 := {| deques := deques hc; dicts := _ |}).
    destruct (IH (S pos) hc1 (visited ++ [field_args sel])) as (hc' & Hrun & Hst' & Hvis').
    + split; [done|]. split; [simpl; by rewrite length_insert|].
      intros a d' Hd'. simpl.
      destruct (decide (a = field_args sel)) as [->|Hne].
      * rewrite Hd in Hd'. injection Hd' as <-. exists (as_lists d).
        split; [|apply semi_to_as_lists].
        apply list_lookup_insert_eq. by apply lookup_lt_Some in Hdc.
      * rewrite list_lookup_insert_ne by done. by apply Hsemi.
    + intros sel' Hin. apply Hwf. by right.
    + intros a d' Hin Hd'. simpl.
      destruct (decide (a = field_args sel)) as [->|Hne].
      * rewrite Hd in Hd'. injection Hd' as <-.
        apply list_lookup_insert_eq. by apply lookup_lt_Some in Hdc.
      * rewrite list_lookup_insert_ne by done. apply Hvis; [|done].
        apply elem_of_app in Hin as [Hin|Hin]; [done|].
        by apply list_elem_of_singleton in Hin.
    + exists hc'. unfold bind. rewrite Hrun. rewrite Hd. simpl.
      split; [done|]. split; [done|].
      intros a d' Hin. apply Hvis'. by rewrite <- app_assoc.
Qed.


(** ** Resolution: which tasks are started *)

Lemma start_seq_elem pos k items : forall i0 t,
  t ∈ start_seq pos k i0 items <->
  exists j x, items !! j = Some x /\ is_id_type x = true
              /\ t = _resolve_seq_id pos (i0 + j) k x.
Proof.
  induction items as [|x items IH]; intros i0 t; simpl.
  - split; [by intros ?%elem_of_nil | by intros (j & y & ? & _)].
  - rewrite elem_of_app, IH. split.
    + intros [Hin|(j & y & Hj & Hy & ->)].
      * destruct (is_id_type x) eqn:Hx; [|by apply elem_of_nil in Hin].
        apply list_elem_of_singleton in Hin as ->.
        exists 0, x. by rewrite Nat.add_0_r.
      * exists (S j), y. split; [done|]. split; [done|]. f_equal. lia.
    + intros ([|j] & y & Hj & Hy & ->); simpl in Hj.
      * injection Hj as ->. left. rewrite Hy, Nat.add_0_r. left.
      * right. exists j, y. split; [done|]. split; [done|]. f_equal. lia.
Qed.

Lemma tasks_of_entry_elem pos k v t :
  t ∈ tasks_of_entry pos (k, v) <->
  (is_id_type_sequence v = true
   /\ exists j x, py_iter v !! j = Some x /\ is_id_type x = true
                  /\ t = _resolve_seq_id pos j k x)
  \/ (is_id_type_sequence v = false /\ is_id_type v = true /\ t = _resolve_id pos k v).
Proof.
  unfold tasks_of_entry; simpl.
  destruct (is_id_type_sequence v).
  - rewrite start_seq_elem. simpl. split.
    + intros Hj. left. done.
    + by intros [[_ Hj]|[? _]].
  - destruct (is_id_type v).
    + rewrite list_elem_of_singleton. split.
      * intros ->. by right.
      * by intros [[? _]|(_ & _ & ->)].
    + split; [by intros ?%elem_of_nil|]. by intros [[? _]|(_ & ? & _)].
Qed.

Lemma tasks_from_elem ds sels : forall pos t,
  t ∈ tasks_from ds pos sels <->
  exists i sel kv, sels !! i = Some sel
    /\ kv ∈ default [] (ds !! field_args sel)
    /\ t ∈ tasks_of_entry (pos + i) kv.
Proof.
  induction sels as [|sel sels IH]; intros pos t; simpl.
  - split; [by intros ?%elem_of_nil | by intros (i & ? & ? & ? & _)].
  - rewrite elem_of_app, IH, list_elem_of_In, in_flat_map. split.
    + intros [(kv & Hkv & Ht)|(i & sel' & kv & Hi & Hkv & Ht)].
      * exists 0, sel, kv. rewrite Nat.add_0_r, !list_elem_of_In. done.
      * exists (S i), sel', kv. split; [done|]. split; [done|].
        by replace (pos + S i) with (S pos + i) by lia.
    + intros ([|i] & sel' & kv & Hi & Hkv & Ht); simpl in Hi.
      * injection Hi as ->. left. exists kv.
        rewrite Nat.add_0_r in Ht. by rewrite <- !list_elem_of_In.
      * right. exists i, sel', kv. split; [done|]. split; [done|].
        by replace (S pos + i) with (pos + S i) by lia.
Qed.

Lemma dict_get_elem {V} (k : string) (v : V) (d : Dict.t V) :
  NoDup (Dict.keys d) -> (k, v) ∈ d -> Dict.get k d = Some v.
Proof.
  induction d as [|[k' v'] d IH]; simpl; intros Hnd Hin.
  - by apply elem_of_nil in Hin.
  - apply NoDup_cons in Hnd as [Hk Hnd].
    apply elem_of_cons in Hin as [Heq|Hin].
    + injection Heq as -> ->. by rewrite String.eqb_refl.
    + destruct (String.eqb_spec k k') as [->|_]; [|by apply IH].
      destruct Hk. unfold Dict.keys.
      apply list_elem_of_In, in_map_iff. exists (k', v).
      by rewrite <- list_elem_of_In.
Qed.

Lemma tasks_from_valid h0 sels t :
  chain_held h0 sels ->
  t ∈ tasks_from (dicts h0) 0 sels -> task_valid (dicts h0) sels t.
Proof.
  intros Hwf (i & sel & [k v] & Hi & Hkv & Ht)%tasks_from_elem.
  destruct (Hwf sel) as (d & Hd & Hnd); [by eapply list_elem_of_lookup_2|].
  rewrite Hd in Hkv. simpl in *.
  apply tasks_of_entry_elem in Ht
    as [(Hseq & j & x & Hj & Hx & ->)|(Hseq & Hv & ->)]; simpl.
  - exists sel, d, v. by rewrite (dict_get_elem k v d).
  - exists sel, d. by rewrite (dict_get_elem k v d).
Qed.

Lemma Forall2_map_r {A B} (R : A -> B -> Prop) (f : A -> B) (l : list A) :
  (forall x, x ∈ l -> R x (f x)) -> Forall2 R l (map f l).
Proof.
  induction l as [|x l IH]; intros HR; [constructor|].
  simpl. constructor; [apply HR; left|]. apply IH. intros y Hy. apply HR. by right.
Qed.

(** Once the tasks are started, every slot is as it was, with a task to
    write it where there is a handle. *)
Lemma started_resolving h0 sels ts h1 :
  chain_held h0 sels ->
  deques h1 = deques h0 ->
  (forall a d, a ∈ map field_args sels -> dicts h0 !! a = Some d ->
     dicts h1 !! a = Some (as_lists d)) ->
  (forall t, t ∈ tasks_from (dicts h0) 0 sels -> t ∈ ts) ->
  resolving h0 sels ts h1.
Proof.
  intros Hwf Hdq Hfull Hts. split; [done|].
  intros sel d Hsel Hd. exists (as_lists d). split.
  { apply Hfull; [|done]. apply list_elem_of_In, in_map. by apply list_elem_of_In. }
  apply Forall2_map_r. intros [k v] Hkv. split; [done|]. simpl.
  apply list_elem_of_lookup_1 in Hsel as [pos Hpos].
  assert (Hcover : forall t, t ∈ tasks_of_entry pos (k, v) -> t ∈ ts).
  { intros t Ht. apply Hts, tasks_from_elem. exists pos, sel, (k, v).
    rewrite Hd. done. }
  unfold slot_state, as_list.
  destruct (is_id_type_sequence v) eqn:Hseq.
  - exists (py_iter v). split; [done|]. split; [done|].
    intros idx x y Hx Hy. rewrite Hx in Hy. injection Hy as <-.
    unfold elem_state. destruct (is_id_type x) eqn:Hh; [|done].
    right. split; [done|]. exists (_resolve_seq_id pos idx k x). split.
    + apply Hcover, tasks_of_entry_elem. left. split; [done|]. by exists idx, x.
    + simpl. by rewrite Hpos.
  - destruct (is_id_type v) eqn:Hh; [|done].
    right. split; [done|]. exists (_resolve_id pos k v). split.
    + apply Hcover, tasks_of_entry_elem. by right.
    + simpl. by rewrite Hpos.
Qed.


(** ** Resolution: running the tasks *)

Lemma elem_state_mono sels ts1 ts2 a k idx x y :
  (pending sels ts1 a k (Some idx) -> pending sels ts2 a k (Some idx)) ->
  elem_state sels ts1 a k idx x y -> elem_state sels ts2 a k idx x y.
Proof.
  unfold elem_state. destruct (is_id_type x); [|done].
  intros Hp [?|[? ?]]; [by left | right; auto].
Qed.

Lemma slot_state_mono sels ts1 ts2 a k v c :
  (forall o, pending sels ts1 a k o -> pending sels ts2 a k o) ->
  slot_state sels ts1 a k v c -> slot_state sels ts2 a k v c.
Proof.
  unfold slot_state. intros Hp.
  destruct (is_id_type_sequence v).
  - intros (l & -> & Hlen & Hel). exists l. split; [done|]. split; [done|].
    intros idx x y Hx Hy. eapply elem_state_mono; [apply Hp | by eapply Hel].
  - destruct (is_id_type v); [|done].
    intros [?|[? ?]]; [by left | right; auto].
Qed.

Lemma pending_tail sels t ts a k o :
  task_target sels t <> Some (a, k, o) ->
  pending sels (t :: ts) a k o -> pending sels ts a k o.
Proof.
  intros Hne (t0 & Hin & Ht0). apply elem_of_cons in Hin as [->|Hin]; [done|].
  by exists t0.
Qed.

Lemma related_get (R : string -> pyval -> pyval -> Prop) d dc k v :
  Forall2 (fun kv kvc => fst kvc = fst kv /\ R (fst kv) (snd kv) (snd kvc)) d dc ->
  Dict.get k d = Some v ->
  exists c, Dict.get k dc = Some c /\ R k v c.
Proof.
  induction 1 as [|[k0 v0] [k1 c0] d dc [Hk HR] _ IH]; simpl; [done|].
  simpl in Hk. subst k1. simpl in HR.
  destruct (String.eqb_spec k k0) as [->|_]; [|done].
  intros [= ->]. by exists c0.
Qed.

Lemma related_other (R R' : string -> pyval -> pyval -> Prop) d dc k :
  k ∉ Dict.keys d ->
  Forall2 (fun kv kvc => fst kvc = fst kv /\ R (fst kv) (snd kv) (snd kvc)) d dc ->
  (forall k' v' c', k' <> k -> R k' v' c' -> R' k' v' c') ->
  Forall2 (fun kv kvc => fst kvc = fst kv /\ R' (fst kv) (snd kv) (snd kvc)) d dc.
Proof.
  intros Hk HF Hother. revert Hk.
  induction HF as [|[k0 v0] [k1 c0] d dc [Hk0 HR] HF IH]; simpl; [constructor|].
  intros [Hne Hk]%not_elem_of_cons. constructor; [|by apply IH].
  split; [done|]. apply Hother; [|done]. simpl. congruence.
Qed.

Lemma related_set (R R' : string -> pyval -> pyval -> Prop) d dc k v r :
  NoDup (Dict.keys d) ->
  Forall2 (fun kv kvc => fst kvc = fst kv /\ R (fst kv) (snd kv) (snd kvc)) d dc ->
  Dict.get k d = Some v ->
  (forall c, Dict.get k dc = Some c -> R k v c -> R' k v r) ->
  (forall k' v' c', k' <> k -> R k' v' c' -> R' k' v' c') ->
  Forall2 (fun kv kvc => fst kvc = fst kv /\ R' (fst kv) (snd kv) (snd kvc))
    d (Dict.set k r dc).
Proof.
  intros Hnd HF. revert Hnd.
  induction HF as [|[k0 v0] [k1 c0] d dc [Hk HR] HF IH]; simpl; [done|].
  simpl in Hk. subst k1. simpl in HR.
  intros [Hk0 Hnd]%NoDup_cons Hget Hnew Hother.
  destruct (String.eqb_spec k k0) as [->|Hne].
  - injection Hget as ->. constructor.
    + split; [done|]. simpl. by apply (Hnew c0).
    + by apply (related_other R R' d dc k0).
  - constructor.
    + split; [done|]. simpl. apply Hother; [congruence|done].
    + by apply IH.
Qed.


Section Running.
Variables (self : Context) (h0 : heap) (sels : list Field).
Hypothesis Hchain : deques h0 !! selections self = Some sels.
Hypothesis Hheld : chain_held h0 sels.

(** One task: it fails as the fetch of its handle fails and leaves the
    store alone, or writes its slot. *)
Lemma run_task_step t ts hc :
  task_valid (dicts h0) sels t ->
  resolving h0 sels (t :: ts) hc ->
  match fetch_id (task_value t) with
  | Ok r => exists hc', run_task self t hc = (Ok tt, hc') /\ resolving h0 sels ts hc'
  | Raise e => run_task self t hc = (Raise e, hc)
  end.
Proof.
  intros Hvalid [Hdq Hall].
  assert (Hread : deque_read (selections self) hc = (Ok sels, hc)).
  { unfold deque_read. by rewrite Hdq, Hchain. }
  destruct t as [pos k v|pos idx k x]; simpl in *.
  - destruct Hvalid as (sel & d & Hpos & Hd & Hget & Hseq & Hh).
    assert (Hsel : sel ∈ sels) by by eapply list_elem_of_lookup_2.
    destruct (Hheld sel Hsel) as (d' & Hd' & Hnd).
    rewrite Hd in Hd'. injection Hd' as <-.
    destruct (Hall sel d Hsel Hd) as (dc & Hdc & HF).
    unfold bind. rewrite Hread, Hpos.
    destruct (fetch_id v) as [r|e] eqn:Hf; simpl; [|done].
    unfold dict_read, dict_write. rewrite Hdc.
    eexists. split; [reflexivity|]. split; [done|]. simpl.
    intros sel' d' Hsel' Hd'.
    destruct (decide (field_args sel' = field_args sel)) as [Heq|Hne].
    + rewrite Heq in *. rewrite Hd in Hd'. injection Hd' as <-.
      exists (Dict.set k r dc). split.
      { apply list_lookup_insert_eq. by apply lookup_lt_Some in Hdc. }
      eapply (related_set _ _ d dc k v r Hnd HF Hget).
      * intros c _ _. unfold slot_state. rewrite Hseq, Hh. by left.
      * intros k' v' c' Hk'. apply slot_state_mono. intros o.
        apply pending_tail. simpl. rewrite Hpos. simpl. congruence.
    + rewrite list_lookup_insert_ne by done.
      destruct (Hall sel' d' Hsel' Hd') as (dc' & Hdc' & HF').
      exists dc'. split; [done|].
      eapply Forall2_impl; [exact HF'|]. intros kv kvc [Hk HS]. split; [done|].
      revert HS. apply slot_state_mono. intros o.
      apply pending_tail. simpl. rewrite Hpos. simpl. congruence.
  - destruct Hvalid as (sel & d & v & Hpos & Hd & Hget & Hseq & Hx & Hh).
    assert (Hsel : sel ∈ sels) by by eapply list_elem_of_lookup_2.
    destruct (Hheld sel Hsel) as (d' & Hd' & Hnd).
    rewrite Hd in Hd'. injection Hd' as <-.
    destruct (Hall sel d Hsel Hd) as (dc & Hdc & HF).
    destruct (related_get _ d dc k v HF Hget) as (c & Hc & HS).
    pose proof HS as HS'. unfold slot_state in HS'. rewrite Hseq in HS'.
    destruct HS' as (l & -> & Hlen & Hel).
    unfold bind. rewrite Hread, Hpos.
    destruct (fetch_id x) as [r|e] eqn:Hf; simpl; [|done].
    unfold dict_read, dict_write. rewrite Hdc, Hc.
    assert (Hidx : idx < length l).
    { rewrite Hlen. by apply lookup_lt_Some in Hx. }
    apply Nat.ltb_lt in Hidx as Hltb. rewrite Hltb.
    eexists. split; [reflexivity|]. split; [done|]. simpl.
    intros sel' d' Hsel' Hd'.
    destruct (decide (field_args sel' = field_args sel)) as [Heq|Hne].
    + rewrite Heq in *. rewrite Hd in Hd'. injection Hd' as <-.
      exists (Dict.set k (VList (<[idx:=r]> l)) dc). split.
      { apply list_lookup_insert_eq. by apply lookup_lt_Some in Hdc. }
      eapply (related_set _ _ d dc k v _ Hnd HF Hget).
      * intros c' Hc' _. unfold slot_state. rewrite Hseq.
        exists (<[idx:=r]> l). split; [done|]. split; [by rewrite length_insert|].
        intros idx' x' y' Hx' Hy'.
        destruct (decide (idx' = idx)) as [->|Hi].
        -- rewrite Hx in Hx'. injection Hx' as <-.
           rewrite list_lookup_insert_eq in Hy' by done. injection Hy' as <-.
           unfold elem_state. rewrite Hh. by left.
        -- rewrite list_lookup_insert_ne in Hy' by done.
           eapply elem_state_mono; [|by eapply Hel].
           apply pending_tail. simpl. rewrite Hpos. simpl. congruence.
      * intros k' v' c' Hk'. apply slot_state_mono. intros o.
        apply pending_tail. simpl. rewrite Hpos. simpl. congruence.
    + rewrite list_lookup_insert_ne by done.
      destruct (Hall sel' d' Hsel' Hd') as (dc' & Hdc' & HF').
      exists dc'. split; [done|].
      eapply Forall2_impl; [exact HF'|]. intros kv kvc [Hk HS2]. split; [done|].
      revert HS2. apply slot_state_mono. intros o.
      apply pending_tail. simpl. rewrite Hpos. simpl. congruence.
Qed.


Lemma run_tasks_steps ts : forall hc,
  (forall t, t ∈ ts -> task_valid (dicts h0) sels t) ->
  resolving h0 sels ts hc ->
  (forall h', run_tasks self ts hc = (Ok tt, h') -> resolving h0 sels [] h')
  /\ ((forall t, t ∈ ts -> exists r, fetch_id (task_value t) = Ok r) ->
      exists h', run_tasks self ts hc = (Ok tt, h')).
Proof.
  induction ts as [|t ts IH]; intros hc Hvalid Hres; simpl.
  - split; [by intros h' [= <-] | by eexists].
  - pose proof (run_task_step t ts hc (Hvalid t ltac:(left)) Hres) as Hstep.
    unfold bind. split.
    + intros h'. destruct (fetch_id (task_value t)) as [r|e].
      * destruct Hstep as (hc' & -> & Hres'). apply IH; [|done].
        intros t' Ht'. apply Hvalid. by right.
      * by rewrite Hstep.
    + intros Hok. destruct (Hok t) as [r Hr]; [left|]. rewrite Hr in Hstep.
      destruct Hstep as (hc' & -> & Hres'). apply IH; [|done|].
      * intros t' Ht'. apply Hvalid. by right.
      * intros t' Ht'. apply Hok. by right.
Qed.

End Running.

Lemma slot_state_done sels a k v c :
  slot_state sels [] a k v c -> resolved v c.
Proof.
  unfold slot_state, resolved.
  assert (Hno : forall o, ~ pending sels [] a k o).
  { by intros o (t & Hin%elem_of_nil & _). }
  destruct (is_id_type_sequence v).
  - intros (l & -> & Hlen & Hel). exists l. split; [done|].
    apply Forall2_same_length_lookup_2; [done|].
    intros idx x y Hx Hy. specialize (Hel idx x y Hx Hy).
    unfold elem_state, resolved_elem in *.
    destruct (is_id_type x); [|done].
    destruct Hel as [?|[_ Hp]]; [done | by apply Hno in Hp].
  - destruct (is_id_type v); [|done].
    intros [?|[_ Hp]]; [done | by apply Hno in Hp].
Qed.

(** C5. When the task group runs what it was given in any order, a
    [resolve_ids] that returns leaves the chain as it was and has written,
    through the dictionary of arguments of every node and key by key: for a
    handle, the identifier its own [id()] fetched; for a sequence the guard
    takes, the list that holds, index by index, the identifier of each
    element that is a handle and the element itself otherwise; for anything
    else, the value unchanged. It does return when the fetch of every
    handle it finds does. *)
Theorem resolve_ids_writes_back (self : Context) (h : heap) (sels : list Field) :
  (forall ts, ts ≡ₚ schedule ts) ->
  deques h !! selections self = Some sels ->
  chain_held h sels ->
  (forall h', resolve_ids self h = (Ok tt, h') ->
     deques h' = deques h
     /\ forall sel d, sel ∈ sels -> dicts h !! field_args sel = Some d ->
          exists d', dicts h' !! field_args sel = Some d'
            /\ Forall2 (fun kv kv' =>
                  fst kv' = fst kv /\ resolved (snd kv) (snd kv')) d d')
  /\ ((forall sel d k v x, sel ∈ sels -> dicts h !! field_args sel = Some d ->
         (k, v) ∈ d ->
         (is_id_type_sequence v = false /\ x = v)
         \/ (is_id_type_sequence v = true /\ x ∈ py_iter v) ->
         is_id_type x = true -> exists r, fetch_id x = Ok r) ->
      exists h', resolve_ids self h = (Ok tt, h')).
Proof.
  intros Hperm Hs Hheld.
  destruct (start_all_run h sels 0 h [] (starting_refl h) Hheld)
    as (h1 & Hstart & (Hdq & _ & _) & Hfull); [by intros a d ?%elem_of_nil|].
  set (ts := tasks_from (dicts h) 0 sels) in *.
  assert (Hres : resolving h sels (schedule ts) h1).
  { apply started_resolving; try done. intros t Ht.
    by apply (elem_of_Permutation_proper t _ _ (Hperm ts)). }
  assert (Hvalid : forall t, t ∈ schedule ts -> task_valid (dicts h) sels t).
  { intros t Ht. apply tasks_from_valid; [done|].
    by apply (elem_of_Permutation_proper t _ _ (Hperm ts)). }
  destruct (run_tasks_steps self h sels Hs Hheld (schedule ts) h1 Hvalid Hres)
    as [Hdone Hprogress].
  assert (Hrun : resolve_ids self h = run_tasks self (schedule ts) h1).
  { unfold resolve_ids, bind, deque_read. by rewrite Hs, Hstart. }
  rewrite Hrun. split.
  - intros h' Hh'. destruct (Hdone h' Hh') as [Hdq' Hall]. split; [done|].
    intros sel d Hsel Hd. destruct (Hall sel d Hsel Hd) as (d' & Hd' & HF).
    exists d'. split; [done|].
    eapply Forall2_impl; [exact HF|]. intros kv kv' [Hk HS]. split; [done|].
    by eapply slot_state_done.
  - intros Hok. apply Hprogress. intros t Ht.
    apply (elem_of_Permutation_proper t _ _ (Hperm ts)) in Ht.
    apply tasks_from_elem in Ht as (i & sel & [k v] & Hi & Hkv & Ht).
    destruct (Hheld sel) as (d & Hd & _); [by eapply list_elem_of_lookup_2|].
    rewrite Hd in Hkv. simpl in *.
    apply tasks_of_entry_elem in Ht
      as [(Hseq & j & x & Hj & Hx & ->)|(Hseq & Hv & ->)]; simpl.
    + apply (Hok sel d k v x); try done; [by eapply list_elem_of_lookup_2|].
      right. split; [done|]. by eapply list_elem_of_lookup_2.
    + apply (Hok sel d k v v); try done; [by eapply list_elem_of_lookup_2|].
      by left.
Qed.

End Resolving.

(** [withDirectory(path="/src", directory=<Directory>, files=(<File>,
    <Secret>))] with the task group running last to first. *)
Lemma resolve_ids_writes_back_witness :
  let H := sample_collaborators (inr VNone) in
  let ctx := mkContext 0 0 0 in
  let node := mkField "Container" "withDirectory" 0 [] in
  let h := {| deques := [[node]];
              dicts := [[("path", VStr "/src");
                         ("directory", VHandle "Directory" ctx []);
                         ("files", VTuple [VHandle "File" ctx [];
                                           VHandle "Secret" ctx []])]] |} in
  let h' := {| deques := [[node]];
               dicts := [[("path", VStr "/src");
                          ("directory", VScalar "DirectoryID" "id of Directory");
                          ("files", VList [VScalar "FileID" "id of File";
                                           VScalar "SecretID" "id of Secret"])]] |} in
  resolve_ids ctx h = (Ok tt, h')
  /\ deques h' = deques h
  /\ forall sel d, sel ∈ [node] -> dicts h !! field_args sel = Some d ->
       exists d', dicts h' !! field_args sel = Some d'
         /\ Forall2 (fun kv kv' =>
               fst kv' = fst kv /\ resolved (snd kv) (snd kv')) d d'.
Proof.
  intros H ctx node h h'.
  destruct (resolve_ids_writes_back ctx h [node]) as [Hdone _].
  - intros ts. apply Permutation_rev.
  - reflexivity.
  - intros sel ->%list_elem_of_singleton. eexists. split; [reflexivity|].
    distinct_keys.
  - split; [reflexivity|]. by apply Hdone.
Defined.

(** * Further properties *)


(** ** More on the chain *)

(** X1. On an empty chain [select_multiple] fails with the [IndexError] of
    [deque.pop()]: it has popped from its copy, so the chain of the receiver
    is still there, empty, and no dictionary has changed. *)
Theorem select_multiple_on_empty_chain (self : Context) (h : heap)
    (type_name : string) (fields : list (string * string)) :
  deques h !! selections self = Some [] ->
  exists h',
    select_multiple self type_name fields h
      = (Raise (IndexError "pop from an empty deque"), h')
    /\ deques h' !! selections self = Some []
    /\ dicts h' = dicts h.
Proof.
  intros Hs. eexists. rewrite (select_multiple_empty _ _ _ _ Hs).
  split; [reflexivity|]. split; [|done]. by apply lookup_app_l_Some.
Qed.

Lemma select_multiple_on_empty_chain_witness :
  exists h',
    select_multiple (mkContext 0 0 0) "Container" [("a", "stdout")]
      {| deques := [[]]; dicts := [] |}
      = (Raise (IndexError "pop from an empty deque"), h')
    /\ deques h' !! 0 = Some []
    /\ dicts h' = [].
Proof.
  apply (select_multiple_on_empty_chain (mkContext 0 0 0)
           {| deques := [[]]; dicts := [] |} "Container" [("a", "stdout")]).
  reflexivity.
Defined.

Section MoreChain.
Context `{Collaborators}.

(** X2. [build] composes along the chain. For a chain of two nodes or more
    the first node is looked up in the schema with the arguments its
    dictionary holds, and what the lookup raises [build] raises; otherwise
    the rest of the chain is rendered as [build] renders it on its own, and
    what that raises [build] raises; otherwise the request is the first
    node with one sub-selection, under the name of the second node, unless
    the schema refuses the sub-selection. The children the first node had
    are not in it. *)
Theorem build_nests (self rest_ctx : Context) (h : heap)
    (first next : Field) (rest : list Field)
    (kwargs : list (string * pyval)) :
  deques h !! selections self = Some (first :: next :: rest) ->
  deques h !! selections rest_ctx = Some (next :: rest) ->
  schema rest_ctx = schema self ->
  dicts h !! field_args first = Some kwargs ->
  build self h =
    (match dsl_field (schema self) (field_type_name first) (field_name first)
             kwargs with
     | Some e => Raise (schema_exn e)
     | None =>
         match fst (build rest_ctx h) with
         | Raise e => Raise e
         | Ok sub =>
             match dsl_select (schema self)
                     (mkDSL (field_type_name first) (field_name first) kwargs [])
                     [(field_name next, sub)] with
             | Some e => Raise (schema_exn e)
             | None =>
                 Ok (mkDSL (field_type_name first) (field_name first) kwargs
                       [(field_name next, sub)])
             end
         end
     end, h).
Proof.
  intros Hs Hr Hsch Hkw. unfold build, bind, deque_read.
  rewrite Hs, Hr, !collapse_nest, Hsch. cbn [nest fst].
  by rewrite to_dsl_child, Hkw, nest_name.
Qed.

Lemma to_dsl_each_leaves sch ds type_name (fields : list (string * string)) :
  forall a,
  (forall i, i < length fields -> ds !! (a + i) = Some []) ->
  (forall kv, kv ∈ fields -> dsl_field sch type_name (snd kv) [] = None) ->
  to_dsl_each sch ds
    (imap (fun i kv => (fst kv, mkField type_name (snd kv) (a + i) [])) fields)
  = Ok (map (fun kv => (fst kv, mkDSL type_name (snd kv) [] [])) fields).
Proof.
  induction fields as [|[k v] fields IH]; intros a Hds Hb; [done|].
  rewrite imap_cons. simpl.
  rewrite (Hds 0) by (simpl; lia).
  pose proof (Hb (k, v) (list_elem_of_here _ _)) as Hv. simpl in Hv.
  rewrite Hv. simpl.
  erewrite imap_ext; [rewrite (IH (S a))|]; [done| | |].
  - intros i Hi. replace (S a + i) with (a + S i) by lia. apply Hds. simpl. lia.
  - intros kv Hkv. apply Hb. by apply list_elem_of_further.
  - intros i x _. simpl. do 2 f_equal. lia.
Qed.

(** X3. After [select_multiple], under a schema that binds the parent field
    with its arguments and each wire name of the field map as a field of
    [type_name] without arguments, and that accepts these as the
    sub-selection of the parent, the new last node renders as the parent,
    with the arguments the parent had, selecting one field per entry of the
    field map, in its order: the wire name under the alias, without
    arguments or sub-selection. *)
Theorem select_multiple_renders_siblings (self : Context) (h : heap)
    (init : list Field) (parent : Field)
    (type_name : string) (fields : list (string * string))
    (kwargs : list (string * pyval)) :
  deques h !! selections self = Some (init ++ [parent]) ->
  NoDup (map fst fields) ->
  dicts h !! field_args parent = Some kwargs ->
  dsl_field (schema self) (field_type_name parent) (field_name parent) kwargs
    = None ->
  (forall kv, kv ∈ fields -> dsl_field (schema self) type_name (snd kv) [] = None) ->
  (fields <> [] ->
   dsl_select (schema self)
     (mkDSL (field_type_name parent) (field_name parent) kwargs [])
     (map (fun kv => (fst kv, mkDSL type_name (snd kv) [] [])) fields) = None) ->
  exists self' h' node,
    select_multiple self type_name fields h = (Ok self', h')
    /\ deques h' !! selections self' = Some (init ++ [node])
    /\ schema self' = schema self
    /\ to_dsl (schema self') (dicts h') node =
         Ok (mkDSL (field_type_name parent) (field_name parent) kwargs
               (map (fun kv => (fst kv, mkDSL type_name (snd kv) [] [])) fields)).
Proof.
  intros Hs Hnd Hkw Hp Hleaves Hsel. eexists _, _, _.
  rewrite (select_multiple_run _ _ _ _ _ _ Hs).
  split; [reflexivity|]. split; [apply lookup_last|]. split; [reflexivity|].
  rewrite to_dsl_unfold. simpl.
  rewrite (lookup_app_l_Some _ _ _ _ Hkw), Hp.
  rewrite leaves_from_fresh by (done || intros; apply not_elem_of_nil). simpl.
  rewrite to_dsl_each_leaves; [| |done].
  - destruct fields as [|kv fields]; [done|]. by rewrite Hsel.
  - intros i Hi. rewrite lookup_app_r; [|lia].
    replace (length (dicts h) + i - length (dicts h)) with i by lia.
    by apply lookup_replicate_2.
Qed.

End MoreChain.

(** The chain [container], [id] and the chain [id], under the sample
    schema. *)
Lemma build_nests_witness :
  let H := sample_collaborators (inr VNone) in
  let h := {| deques := [[mkField "Query" "container" 0 [];
                          mkField "Container" "id" 1 []];
                         [mkField "Container" "id" 1 []]];
              dicts := [[]; []] |} in
  build (mkContext 0 0 0) h =
    (Ok (mkDSL "Query" "container" []
           [("id", mkDSL "Container" "id" [] [])]), h).
Proof.
  intros H h.
  apply (build_nests (H := H) (mkContext 0 0 0) (mkContext 0 0 1) h
           (mkField "Query" "container" 0 []) (mkField "Container" "id" 1 []) []
           []); reflexivity.
Defined.

Lemma select_multiple_renders_siblings_witness :
  let H := sample_collaborators (inr VNone) in
  exists self' h' node,
    select_multiple (mkContext 0 0 0) "Container" [("a", "stdout"); ("b", "stderr")]
      {| deques := [[mkField "Query" "container" 0 []]]; dicts := [[]] |}
      = (Ok self', h')
    /\ deques h' !! selections self' = Some ([] ++ [node])
    /\ schema self' = 0
    /\ to_dsl (schema self') (dicts h') node =
         Ok (mkDSL "Query" "container" []
               [("a", mkDSL "Container" "stdout" [] []);
                ("b", mkDSL "Container" "stderr" [] [])]).
Proof.
  intros H.
  apply (select_multiple_renders_siblings (H := H) (mkContext 0 0 0)
           {| deques := [[mkField "Query" "container" 0 []]]; dicts := [[]] |}
           [] (mkField "Query" "container" 0 []) "Container"
           [("a", "stdout"); ("b", "stderr")] []).
  - reflexivity.
  - distinct_keys.
  - reflexivity.
  - reflexivity.
  - intros kv Hkv.
    apply elem_of_cons in Hkv as [->|Hkv]; [reflexivity|].
    apply elem_of_cons in Hkv as [->|Hkv]; [reflexivity|].
    by apply elem_of_nil in Hkv.
  - reflexivity.
Defined.

(** ** More on decoding *)

Lemma walk_response sels leaf : walk sels (response_for sels leaf) = Ok leaf.
Proof.
  induction sels as [|f sels IH]; [done|].
  simpl. by rewrite String.eqb_refl.
Qed.

Lemma walk_stops pre post : forall value v,
  walk pre value = Ok v -> is_dict v = false -> walk (pre ++ post) value = Ok v.
Proof.
  induction pre as [|f pre IH]; intros value v Hw Hv; simpl in *.
  - injection Hw as ->. destruct post; [done|]. by destruct v.
  - destruct value as [| | | | | | | |entries| |]; try done.
    destruct (Dict.get (field_name f) entries); [by apply IH | done].
Qed.

Lemma get_value_decode self h sels value v return_type :
  deques h !! selections self = Some sels ->
  walk sels value = Ok v ->
  get_value self value return_type h =
    (decode self return_type v, h).
Proof.
  intros Hs Hw. unfold get_value, decode, bind, deque_read.
  rewrite Hs, Hw. by destruct (is_None v && negb (is_bearable_None return_type)).
Qed.

(** X4. The walk of [get_value] inverts the nesting of the chain: on a
    response that holds one dictionary per node, keyed by its name, it
    reaches the innermost value, which [get_value] decodes, or refuses when
    it is [None] and the expected type does not accept it. *)
Theorem get_value_of_response (self : Context) (h : heap) (sels : list Field)
    (leaf : pyval) (return_type : pytype) :
  deques h !! selections self = Some sels ->
  get_value self (response_for sels leaf) return_type h =
    (if is_None leaf && negb (is_bearable_None return_type)
     then Raise (InvalidQueryError
            "Required field got a null response. Check if parent fields are valid.")
     else returned (structure self return_type leaf), h).
Proof.
  intros Hs. rewrite (get_value_decode _ _ _ _ leaf _ Hs (walk_response sels leaf)).
  done.
Qed.

Lemma get_value_of_response_witness :
  let h := {| deques := [[mkField "Query" "container" 0 [];
                          mkField "Container" "stdout" 1 []]];
              dicts := [[]; []] |} in
  get_value (mkContext 0 0 0)
    (VDict [("container", VDict [("stdout", VStr "hello")])]) TStr h
  = (Ok (Value (VStr "hello")), h).
Proof.
  intros h.
  apply (get_value_of_response (mkContext 0 0 0) h
           [mkField "Query" "container" 0 []; mkField "Container" "stdout" 1 []]
           (VStr "hello") TStr).
  reflexivity.
Defined.

(** X5. The walk stops on the first value that is not a dictionary and
    ignores the rest of the chain: that value is what [get_value] decodes,
    so a null parent field ends in the null-response error, not in a failed
    lookup. *)
Theorem get_value_stops_at_non_dict (self : Context) (h : heap)
    (pre post : list Field) (value v : pyval) (return_type : pytype) :
  deques h !! selections self = Some (pre ++ post) ->
  walk pre value = Ok v ->
  is_dict v = false ->
  get_value self value return_type h =
    (if is_None v && negb (is_bearable_None return_type)
     then Raise (InvalidQueryError
            "Required field got a null response. Check if parent fields are valid.")
     else returned (structure self return_type v), h).
Proof.
  intros Hs Hw Hv.
  rewrite (get_value_decode _ _ _ _ v _ Hs (walk_stops _ _ _ _ Hw Hv)).
  done.
Qed.

Lemma get_value_stops_at_non_dict_witness :
  let h := {| deques := [[mkField "Query" "container" 0 [];
                          mkField "Container" "from" 1 [];
                          mkField "Container" "id" 2 []]];
              dicts := [[]; []; []] |} in
  get_value (mkContext 0 0 0) (VDict [("container", VNone)]) (TScalar "ContainerID") h
  = (Raise (InvalidQueryError
       "Required field got a null response. Check if parent fields are valid."), h).
Proof.
  intros h.
  apply (get_value_stops_at_non_dict (mkContext 0 0 0) h
           [mkField "Query" "container" 0 []]
           [mkField "Container" "from" 1 []; mkField "Container" "id" 2 []]
           (VDict [("container", VNone)]) VNone (TScalar "ContainerID"));
    reflexivity.
Defined.

(** ** More on encoding *)

Lemma asdict_not_input v : InputHint_is_bearable v = true ->
  InputHint_is_bearable (asdict v) = false.
Proof. by destruct v. Qed.

Lemma inputs_asdict_not_inputs items :
  forallb InputHint_is_bearable items = true ->
  forallb InputHint_is_bearable (map asdict items) = true ->
  items = [].
Proof.
  destruct items as [|x items]; [done|]. simpl.
  intros [Hx _]%andb_prop [Hx' _]%andb_prop.
  by rewrite (asdict_not_input x Hx) in Hx'.
Qed.

(** X6. Encoding is idempotent: what [as_input] returns is never a
    structured input, and encoding it again, at whatever address, returns
    it unchanged. *)
Theorem as_input_idempotent (arg : Arg) (a : nat) :
  InputHint_is_bearable (as_input arg) = false
  /\ as_input (mkArg (arg_name arg) (mkObj a (as_input arg)) (arg_default arg))
     = as_input arg.
Proof.
  destruct arg as [n [a0 v] d]. unfold as_input; simpl.
  destruct (InputHint_is_bearable v) eqn:Hi.
  { destruct v; try done. }
  destruct (InputSeqHint_is_bearable v) eqn:Hs.
  - split; [done|]. simpl.
    destruct (forallb InputHint_is_bearable (map asdict (py_iter v))) eqn:Hf; [|done].
    assert (py_iter v = []) as ->; [|done].
    apply inputs_asdict_not_inputs; [|done]. by destruct v.
  - by rewrite Hi, Hs.
Qed.

(** ** More on decoding: objects *)

Lemma structure_object self cls slots d :
  structure self (TObject cls slots) (VDict d) =
    match struct_slots self d slots with
    | Value attrs => Value (VHandle cls self attrs)
    | Raises e => Raises e
    | Unmodelled => Unmodelled
    end.
Proof.
  simpl.
  match goal with
  | |- match ?X with Value _ => _ | Raises _ => _ | Unmodelled => _ end = _ =>
      assert (Heach : X = struct_slots self d slots)
  end.
  { generalize slots. intros l. induction l as [|[s [t|]] l IH]; [done| |].
    - simpl. destruct (Dict.get s d); [|done]. by rewrite IH.
    - simpl. done. }
  by rewrite Heach.
Qed.

Lemma struct_slots_sound self d slots : forall attrs,
  struct_slots self d slots = Value attrs ->
  forall k y, Dict.get k attrs = Some y ->
    exists t x, (k, Some t) ∈ slots /\ Dict.get k d = Some x
                /\ structure self t x = Value y.
Proof.
  induction slots as [|[s hint] slots IH]; intros attrs Hrun k y Hk; simpl in *.
  - injection Hrun as <-. done.
  - assert (Hrest : forall attrs', struct_slots self d slots = Value attrs' ->
              Dict.get k attrs' = Some y ->
              exists t x, (k, Some t) ∈ (s, hint) :: slots
                          /\ Dict.get k d = Some x /\ structure self t x = Value y).
    { intros attrs' Hr Hk'. destruct (IH attrs' Hr k y Hk') as (t & x & Ht & Hx).
      exists t, x. split; [by right | done]. }
    destruct hint as [t|]; [|by eapply Hrest].
    destruct (Dict.get s d) as [x|] eqn:Hx; [|by eapply Hrest].
    destruct (structure self t x) as [y0| |] eqn:Hy; [|done..].
    destruct (struct_slots self d slots) as [ys| |]; [|done..].
    injection Hrun as <-. rewrite dict_get_set in Hk.
    destruct (String.eqb_spec k s) as [->|_]; [|by eapply Hrest].
    injection Hk as <-. exists t, x. split; [left | done].
Qed.

Lemma struct_slots_complete self d slots : forall attrs,
  struct_slots self d slots = Value attrs ->
  forall k t x, (k, Some t) ∈ slots -> Dict.get k d = Some x ->
    Dict.mem k attrs = true.
Proof.
  induction slots as [|[s hint] slots IH]; intros attrs Hrun k t x Hin Hx; simpl in *.
  - by apply elem_of_nil in Hin.
  - apply elem_of_cons in Hin as [Heq|Hin].
    + injection Heq as <- <-. rewrite Hx in Hrun.
      destruct (structure self t x) as [y| |]; [|done..].
      destruct (struct_slots self d slots) as [ys| |]; [|done..].
      injection Hrun as <-. unfold Dict.mem.
      by rewrite dict_get_set, String.eqb_refl.
    + destruct hint as [t'|]; [|by eapply IH].
      destruct (Dict.get s d) as [x'|]; [|by eapply IH].
      destruct (structure self t' x') as [y| |]; [|done..].
      destruct (struct_slots self d slots) as [ys| |] eqn:Hys; [|done..].
      injection Hrun as <-. unfold Dict.mem. rewrite dict_get_set.
      destruct (String.eqb k s); [done|].
      by apply (IH ys eq_refl k t x).
Qed.

Lemma struct_slots_absent self slots :
  struct_slots self [] slots = Value [].
Proof. induction slots as [|[s [t|]] slots IH]; done. Qed.

(** X7. The hook [_struct]: an object decoded from a dictionary is of the
    expected class and bound to the decoding context; an empty dictionary
    gives it no attribute and is no error; every attribute it gets is the
    decoding, at the slot's hint, of the entry of that name, and every slot
    that has a hint and an entry gets one. *)
Theorem structure_object_bound (self : Context) (cls : string)
    (slots : list (string * option pytype)) (d : list (string * pyval)) :
  structure self (TObject cls slots) (VDict []) = Value (VHandle cls self [])
  /\ forall r, structure self (TObject cls slots) (VDict d) = Value r ->
       exists attrs, r = VHandle cls self attrs
         /\ (forall k y, Dict.get k attrs = Some y ->
               exists t x, (k, Some t) ∈ slots /\ Dict.get k d = Some x
                           /\ structure self t x = Value y)
         /\ (forall k t x, (k, Some t) ∈ slots -> Dict.get k d = Some x ->
               Dict.mem k attrs = true).
Proof.
  rewrite !structure_object. split.
  - by rewrite struct_slots_absent.
  - intros r Hr.
    destruct (struct_slots self d slots) as [attrs| |] eqn:Hs; [|done..].
    injection Hr as <-. exists attrs. split; [done|]. split.
    + by apply (struct_slots_sound self d slots).
    + by apply (struct_slots_complete self d slots).
Qed.

(** A [File] with slots [_id] and [_contents], from a listing that gives
    its identifier and its name. *)
Lemma structure_object_bound_witness :
  let self := mkContext 0 0 0 in
  let slots := [("_id", Some (TScalar "FileID")); ("_contents", Some TStr)] in
  let d := [("_id", VStr "f1"); ("name", VStr "notes.txt")] in
  exists attrs,
    VHandle "File" self [("_id", VScalar "FileID" "f1")] = VHandle "File" self attrs
    /\ (forall k y, Dict.get k attrs = Some y ->
          exists t x, (k, Some t) ∈ slots /\ Dict.get k d = Some x
                      /\ structure self t x = Value y)
    /\ (forall k t x, (k, Some t) ∈ slots -> Dict.get k d = Some x ->
          Dict.mem k attrs = true).
Proof.
  intros self slots d.
  destruct (structure_object_bound self "File" slots d) as [_ Hbound].
  apply (Hbound (VHandle "File" self [("_id", VScalar "FileID" "f1")])).
  reflexivity.
Defined.

Section MoreCollaborating.
Context `{Collaborators}.

(** ** More on [execute] *)

Lemma resolve_ids_empty self h :
  (forall ts, ts ≡ₚ schedule ts) ->
  deques h !! selections self = Some [] ->
  resolve_ids self h = (Ok tt, h).
Proof.
  intros Hperm Hs. unfold resolve_ids, bind, deque_read. rewrite Hs. simpl.
  by rewrite (Permutation_nil (Hperm [])).
Qed.

(** X8. [execute] on an empty chain fails with "No field has been
    selected" and leaves the store as it was: there is nothing to resolve
    and the session is not asked. *)
Theorem execute_on_empty_chain (self : Context) (return_type : option pytype)
    (h : heap) :
  (forall ts, ts ≡ₚ schedule ts) ->
  deques h !! selections self = Some [] ->
  execute self return_type h =
    (Raise (InvalidQueryError "No field has been selected"), h).
Proof.
  intros Hperm Hs. unfold execute, bind.
  rewrite (resolve_ids_empty _ _ Hperm Hs).
  unfold query, build, bind, deque_read. by rewrite Hs.
Qed.

(** X9. A failure of the session that is an instance of none of the
    classes the [except] clauses name propagates as it is. *)
Theorem execute_propagates_unhandled (self : Context)
    (return_type : option pytype) (h h1 : heap) (q : Document) (e : pyexc) :
  resolve_ids self h = (Ok tt, h1) ->
  query self h1 = (Ok q, h1) ->
  session_execute (session self) q = inl e ->
  (forall c, isinstance e c = false) ->
  execute self return_type h = (Raise (Reraised e), h1).
Proof.
  intros Hr Hq He Hc. unfold execute, bind. rewrite Hr, Hq, He.
  unfold raise, on_failure. by rewrite !Hc.
Qed.

End MoreCollaborating.

Lemma execute_on_empty_chain_witness :
  execute (H := sample_collaborators (inr VNone)) (mkContext 0 0 0) (Some TStr)
    {| deques := [[]]; dicts := [] |}
  = (Raise (InvalidQueryError "No field has been selected"),
     {| deques := [[]]; dicts := [] |}).
Proof.
  apply (execute_on_empty_chain (H := sample_collaborators (inr VNone))).
  - intros ts. apply Permutation_rev.
  - reflexivity.
Defined.

Lemma execute_propagates_unhandled_witness :
  let e := mkExc [] "Transport is already connected" in
  let h := {| deques := [[mkField "Query" "container" 0 []]]; dicts := [[]] |} in
  execute (H := sample_collaborators (inl e)) (mkContext 0 0 0) (Some TStr) h
    = (Raise (Reraised e), h).
Proof.
  intros e h.
  apply (execute_propagates_unhandled (H := sample_collaborators (inl e))
           (mkContext 0 0 0) (Some TStr) h h
           (DSLQuery (mkDSL "Query" "container" [] [])) e);
    [reflexivity | reflexivity | reflexivity | by intros []].
Defined.



Section MoreResolving.
Context `{Collaborators}.

(** ** More on resolution *)

Lemma resolve_ids_started self h sels :
  (forall ts, ts ≡ₚ schedule ts) ->
  deques h !! selections self = Some sels ->
  chain_held h sels ->
  exists h1,
    resolve_ids self h = run_tasks self (schedule (tasks_from (dicts h) 0 sels)) h1
    /\ resolving h sels (schedule (tasks_from (dicts h) 0 sels)) h1
    /\ (forall t, t ∈ schedule (tasks_from (dicts h) 0 sels) ->
          task_valid (dicts h) sels t).
Proof.
  intros Hperm Hs Hheld.
  destruct (start_all_run h sels 0 h [] (starting_refl h) Hheld)
    as (h1 & Hstart & (Hdq & _ & _) & Hfull); [by intros a d ?%elem_of_nil|].
  exists h1. split; [|split].
  - unfold resolve_ids, bind, deque_read. by rewrite Hs, Hstart.
  - apply started_resolving; try done. intros t Ht.
    by apply (elem_of_Permutation_proper t _ _ (Hperm (tasks_from (dicts h) 0 sels))).
  - intros t Ht. apply tasks_from_valid; [done|].
    by apply (elem_of_Permutation_proper t _ _ (Hperm (tasks_from (dicts h) 0 sels))).
Qed.

Lemma resolve_ids_resolved self h sels h' :
  (forall ts, ts ≡ₚ schedule ts) ->
  deques h !! selections self = Some sels ->
  chain_held h sels ->
  resolve_ids self h = (Ok tt, h') ->
  deques h' = deques h
  /\ forall sel d, sel ∈ sels -> dicts h !! field_args sel = Some d ->
       exists d', dicts h' !! field_args sel = Some d'
         /\ Forall2 (fun kv kv' =>
               fst kv' = fst kv /\ resolved (snd kv) (snd kv')) d d'.
Proof.
  intros Hperm Hs Hheld Hrun.
  destruct (resolve_ids_started self h sels Hperm Hs Hheld)
    as (h1 & Heq & Hres & Hvalid).
  rewrite Heq in Hrun.
  destruct (run_tasks_steps self h sels Hs Hheld _ h1 Hvalid Hres) as [Hdone _].
  destruct (Hdone h' Hrun) as [Hdq Hall]. split; [done|].
  intros sel d Hsel Hd. destruct (Hall sel d Hsel Hd) as (d' & Hd' & HF).
  exists d'. split; [done|].
  eapply Forall2_impl; [exact HF|]. intros kv kv' [Hk HS]. split; [done|].
  by eapply slot_state_done.
Qed.

Lemma task_handle h sels t :
  chain_held h sels ->
  t ∈ tasks_from (dicts h) 0 sels -> chain_handle h sels (task_value t).
Proof.
  intros Hheld (i & sel & [k v] & Hi & Hkv & Ht)%tasks_from_elem.
  assert (Hsel : sel ∈ sels) by by eapply list_elem_of_lookup_2.
  destruct (Hheld sel Hsel) as (d & Hd & _).
  rewrite Hd in Hkv. simpl in *.
  apply tasks_of_entry_elem in Ht
    as [(Hseq & j & x & Hj & Hx & ->)|(Hseq & Hv & ->)]; simpl.
  - split; [done|]. exists sel, d, k, v. repeat (split; [done|]).
    right. split; [done|]. by eapply list_elem_of_lookup_2.
  - split; [done|]. exists sel, d, k, v. repeat (split; [done|]). by left.
Qed.

Lemma run_tasks_raises self h0 sels ts :
  deques h0 !! selections self = Some sels ->
  chain_held h0 sels ->
  forall hc,
  (forall t, t ∈ ts -> task_valid (dicts h0) sels t) ->
  resolving h0 sels ts hc ->
  forall e h', run_tasks self ts hc = (Raise e, h') ->
    (exists t, t ∈ ts /\ fetch_id (task_value t) = Raise e)
    /\ deques h' = deques h0.
Proof.
  intros Hs Hheld. induction ts as [|t ts IH]; intros hc Hvalid Hres e h'; simpl.
  - done.
  - pose proof (run_task_step self h0 sels Hs Hheld t ts hc
                  (Hvalid t ltac:(left)) Hres) as Hstep.
    unfold bind. destruct (fetch_id (task_value t)) as [r|e0] eqn:Hf.
    + destruct Hstep as (hc' & -> & Hres'). intros Hrun.
      destruct (IH hc') with (e := e) (h' := h') as [(t' & Ht' & He) Hdq]; try done.
      { intros t' Ht'. apply Hvalid. by right. }
      split; [|done]. exists t'. split; [by right | done].
    + rewrite Hstep. intros [= <- <-]. split; [|by destruct Hres].
      exists t. split; [left | done].
Qed.

(** X10. [resolve_ids] fails only as a fetch fails: the error it raises is
    the one the [id()] of some handle among the arguments of the chain
    raised. The writes by key and by index it makes never fail, whatever
    the order of the tasks, and the chain is as it was. *)
Theorem resolve_ids_raises_fetch_error (self : Context) (h : heap)
    (sels : list Field) (e : exn) (h' : heap) :
  (forall ts, ts ≡ₚ schedule ts) ->
  deques h !! selections self = Some sels ->
  chain_held h sels ->
  resolve_ids self h = (Raise e, h') ->
  (exists x, chain_handle h sels x /\ fetch_id x = Raise e)
  /\ deques h' = deques h.
Proof.
  intros Hperm Hs Hheld Hrun.
  destruct (resolve_ids_started self h sels Hperm Hs Hheld)
    as (h1 & Heq & Hres & Hvalid).
  rewrite Heq in Hrun.
  destruct (run_tasks_raises self h sels _ Hs Hheld h1 Hvalid Hres e h' Hrun)
    as [(t & Ht & He) Hdq].
  split; [|done]. exists (task_value t). split; [|done].
  apply task_handle; [done|].
  by apply (elem_of_Permutation_proper t _ _ (Hperm (tasks_from (dicts h) 0 sels))).
Qed.

Lemma start_seq_settled pos k l : forall idx,
  Forall (fun x => is_id_type x = false) l -> start_seq pos k idx l = [].
Proof.
  induction l as [|x l IH]; intros idx Hl; [done|].
  apply Forall_cons in Hl as [Hx Hl]. simpl. rewrite Hx. by apply IH.
Qed.

Lemma settled_entry pos k v :
  settled v -> tasks_of_entry pos (k, v) = [] /\ as_list v = v.
Proof.
  intros [Hv Hseq]. unfold tasks_of_entry, as_list. simpl.
  destruct (is_id_type_sequence v).
  - destruct Hseq as (l & -> & Hl); [done|]. simpl.
    split; [by apply start_seq_settled | done].
  - by rewrite Hv.
Qed.

Lemma settled_dict pos (d : Dict.t pyval) :
  (forall k v, (k, v) ∈ d -> settled v) ->
  flat_map (tasks_of_entry pos) d = [] /\ as_lists d = d.
Proof.
  induction d as [|[k v] d IH]; intros Hd; [done|].
  destruct (settled_entry pos k v) as [Ht Ha]; [apply (Hd k v); left|].
  destruct IH as [IHt IHa]; [intros k' v' Hin; apply (Hd k' v'); by right|].
  simpl. rewrite Ht, IHt. unfold as_lists in *. simpl. by rewrite Ha, IHa.
Qed.

Lemma start_all_settled h sels : forall pos,
  chain_held h sels -> chain_settled h sels ->
  start_all pos sels h = (Ok [], h).
Proof.
  induction sels as [|sel sels IH]; intros pos Hheld Hset; [done|].
  destruct (Hheld sel) as (d & Hd & Hnd); [left|].
  destruct (settled_dict pos d) as [Ht Ha].
  { intros k v Hin. apply (Hset sel d k v); [left|done|done]. }
  simpl. unfold bind at 1, dict_read at 1. rewrite Hd.
  unfold bind at 1. rewrite (start_args_run _ _ _ _ _ Hd).
  assert (Hl : listed d d = d).
  { rewrite <- Ha at 3. by apply (listed_as_lists d []). }
  rewrite Hl, Ht, list_insert_id by done.
  replace {| deques := deques h; dicts := dicts h |} with h by by destruct h.
  unfold bind. rewrite IH; [done| |].
  - intros sel' Hin. apply Hheld. by right.
  - intros sel' d' k v Hin. apply (Hset sel' d' k v). by right.
Qed.

(** X11. On a chain whose arguments hold no handle, [resolve_ids] starts no
    task, returns, and leaves the store exactly as it was. *)
Theorem resolve_ids_settled (self : Context) (h : heap) (sels : list Field) :
  (forall ts, ts ≡ₚ schedule ts) ->
  deques h !! selections self = Some sels ->
  chain_held h sels ->
  chain_settled h sels ->
  start_all 0 sels h = (Ok [], h) /\ resolve_ids self h = (Ok tt, h).
Proof.
  intros Hperm Hs Hheld Hset.
  pose proof (start_all_settled h sels 0 Hheld Hset) as Hstart.
  split; [done|].
  unfold resolve_ids, bind, deque_read. rewrite Hs, Hstart.
  by rewrite (Permutation_nil (Hperm [])).
Qed.


Lemma resolved_settled v c :
  (forall x r, fetch_id x = Ok r ->
     is_id_type r = false /\ is_id_type_sequence r = false) ->
  resolved v c -> settled c.
Proof.
  intros Hplain. unfold resolved, settled.
  destruct (is_id_type_sequence v) eqn:Hseq.
  - intros (l & -> & HF). split; [done|]. intros _. exists l. split; [done|].
    clear Hseq. induction HF as [|x y xs ys Hxy _ IH]; [constructor|].
    constructor; [|done]. unfold resolved_elem in Hxy.
    destruct (is_id_type x) eqn:Hx; [by apply (Hplain x y) | by subst].
  - destruct (is_id_type v) eqn:Hv.
    + intros Hf. destruct (Hplain v c Hf) as [Hc Hcs]. split; [done|].
      by rewrite Hcs.
    + intros ->. split; [done|]. by rewrite Hseq.
Qed.

Lemma related_keys (R : pyval -> pyval -> Prop) (d d' : Dict.t pyval) :
  Forall2 (fun kv kv' => fst kv' = fst kv /\ R (snd kv) (snd kv')) d d' ->
  Dict.keys d' = Dict.keys d.
Proof.
  induction 1 as [|[k v] [k' c] d d' [Hk _] _ IH]; [done|].
  simpl in *. by rewrite Hk, IH.
Qed.

(** X12. [resolve_ids] is idempotent: when identifiers are neither handles
    nor sequences the guard takes, a second [resolve_ids] on the same
    context starts no task and changes nothing. *)
Theorem resolve_ids_idempotent (self : Context) (h h' : heap)
    (sels : list Field) :
  (forall ts, ts ≡ₚ schedule ts) ->
  (forall x r, fetch_id x = Ok r ->
     is_id_type r = false /\ is_id_type_sequence r = false) ->
  deques h !! selections self = Some sels ->
  chain_held h sels ->
  resolve_ids self h = (Ok tt, h') ->
  start_all 0 sels h' = (Ok [], h') /\ resolve_ids self h' = (Ok tt, h').
Proof.
  intros Hperm Hplain Hs Hheld Hrun.
  destruct (resolve_ids_resolved self h sels h' Hperm Hs Hheld Hrun) as [Hdq Hall].
  assert (Hstart : start_all 0 sels h' = (Ok [], h')).
  2:{ split; [done|]. unfold resolve_ids, bind, deque_read.
      rewrite Hdq, Hs, Hstart. by rewrite (Permutation_nil (Hperm [])). }
  apply start_all_settled.
  - intros sel Hsel. destruct (Hheld sel Hsel) as (d & Hd & Hnd).
    destruct (Hall sel d Hsel Hd) as (d' & Hd' & HF).
    exists d'. split; [done|]. by rewrite (related_keys resolved d d').
  - intros sel d' k c Hsel Hd' Hin.
    destruct (Hheld sel Hsel) as (d & Hd & _).
    destruct (Hall sel d Hsel Hd) as (d'' & Hd'' & HF).
    rewrite Hd' in Hd''. injection Hd'' as <-.
    apply list_elem_of_lookup_1 in Hin as [i Hi].
    destruct (Forall2_lookup_r _ _ _ _ _ HF Hi) as ([k0 v] & _ & _ & Hres).
    by apply (resolved_settled v c).
Qed.

Lemma dict_set_keys {V} (k : string) (v : V) (d : Dict.t V) (x : string) :
  x ∈ Dict.keys (Dict.set k v d) <-> x = k \/ x ∈ Dict.keys d.
Proof.
  induction d as [|[k' v'] d IH]; simpl.
  - rewrite list_elem_of_singleton. split; [by left | by intros [?|?%elem_of_nil]].
  - destruct (String.eqb_spec k k') as [->|Hne]; simpl.
    + rewrite elem_of_cons. split; [intros [?|?]; auto | intros [?|?]; auto].
    + rewrite !elem_of_cons, IH.
      split; [intros [?|[?|?]]; auto | intros [?|[?|?]]; auto].
Qed.

Lemma dict_set_nodup {V} (k : string) (v : V) (d : Dict.t V) :
  NoDup (Dict.keys d) -> NoDup (Dict.keys (Dict.set k v d)).
Proof.
  induction d as [|[k' v'] d IH]; simpl; intros Hnd.
  - apply NoDup_singleton.
  - apply NoDup_cons in Hnd as [Hk' Hnd].
    destruct (String.eqb_spec k k') as [->|Hne]; simpl.
    + by apply NoDup_cons_2.
    + apply NoDup_cons_2; [|by apply IH].
      rewrite dict_set_keys. by intros [->|?].
Qed.

Lemma encode_args_nodup args : NoDup (Dict.keys (encode_args args)).
Proof.
  unfold encode_args, Dict.of_items.
  generalize (map (fun arg => (arg_name arg, as_input arg))
                (List.filter
                   (fun arg => negb (py_is (arg_value arg) (arg_default arg))) args)).
  intros items.
  assert (Hacc : NoDup (Dict.keys ([] : Dict.t pyval))) by apply NoDup_nil_2.
  revert Hacc. generalize ([] : Dict.t pyval).
  induction items as [|[k v] items IH]; intros acc Hacc; [done|].
  simpl. apply IH. by apply dict_set_nodup.
Qed.

(** A fork of [self]: what [select] or [select_multiple] returned. *)
Lemma fork_chain self h sels self' h1 type_name field_name args fields :
  deques h !! selections self = Some sels ->
  chain_held h sels ->
  select self type_name field_name args h = (Ok self', h1)
  \/ select_multiple self type_name fields h = (Ok self', h1) ->
  extends h h1
  /\ exists sels',
       deques h1 !! selections self' = Some sels'
       /\ chain_held h1 sels'
       /\ forall sel, sel ∈ sels ->
            exists sel', sel' ∈ sels' /\ field_args sel' = field_args sel.
Proof.
  intros Hs Hheld [Hrun|Hrun].
  - rewrite (select_run _ _ _ _ _ _ Hs) in Hrun. injection Hrun as <- <-.
    split; [split; by apply prefix_app_r|].
    eexists. split; [apply lookup_last|]. split.
    + intros sel [Hin|Hin%list_elem_of_singleton]%elem_of_app; [|subst sel]; simpl.
      * destruct (Hheld sel Hin) as (d & Hd & Hnd). exists d.
        split; [by apply lookup_app_l_Some | done].
      * eexists. split; [apply lookup_last | apply encode_args_nodup].
    + intros sel Hin. exists sel. split; [|done]. apply elem_of_app. by left.
  - destruct (last sels) as [parent|] eqn:Hl.
    2:{ apply last_None in Hl as ->.
        by rewrite (select_multiple_empty _ _ _ _ Hs) in Hrun. }
    apply last_Some in Hl as [init ->].
    rewrite (select_multiple_run _ _ _ _ _ _ Hs) in Hrun. injection Hrun as <- <-.
    split; [split; by apply prefix_app_r|].
    eexists. split; [apply lookup_last|]. split.
    + intros sel [Hin|Hin%list_elem_of_singleton]%elem_of_app; [|subst sel]; simpl.
      * destruct (Hheld sel) as (d & Hd & Hnd); [apply elem_of_app; by left|].
        exists d. split; [by apply lookup_app_l_Some | done].
      * destruct (Hheld parent) as (d & Hd & Hnd).
        { apply elem_of_app. right. by apply list_elem_of_singleton. }
        exists d. split; [by apply lookup_app_l_Some | done].
    + intros sel [Hin|Hin%list_elem_of_singleton]%elem_of_app; [|subst sel].
      * exists sel. split; [|done]. apply elem_of_app. by left.
      * eexists. split; [apply elem_of_app; right; by apply list_elem_of_singleton|].
        done.
Qed.

(** X13. A fork shares the dictionaries of arguments of the nodes it was
    made from: when [resolve_ids] returns on a context that [select] or
    [select_multiple] made from [self], the chain of [self] is as it was and
    the arguments of every node of [self] are resolved as well. *)
Theorem fork_resolves_origin (self self' : Context) (h h1 h2 : heap)
    (sels : list Field) (type_name field_name : string) (args : list Arg)
    (fields : list (string * string)) :
  (forall ts, ts ≡ₚ schedule ts) ->
  deques h !! selections self = Some sels ->
  chain_held h sels ->
  select self type_name field_name args h = (Ok self', h1)
  \/ select_multiple self type_name fields h = (Ok self', h1) ->
  resolve_ids self' h1 = (Ok tt, h2) ->
  deques h2 !! selections self = Some sels
  /\ forall sel d, sel ∈ sels -> dicts h !! field_args sel = Some d ->
       exists d', dicts h2 !! field_args sel = Some d'
         /\ Forall2 (fun kv kv' =>
               fst kv' = fst kv /\ resolved (snd kv) (snd kv')) d d'.
Proof.
  intros Hperm Hs Hheld Hfork Hrun.
  destruct (fork_chain self h sels self' h1 _ _ _ _ Hs Hheld Hfork)
    as (Hext & sels' & Hs' & Hheld' & Hshare).
  destruct (resolve_ids_resolved self' h1 sels' h2 Hperm Hs' Hheld' Hrun)
    as [Hdq Hall].
  split.
  - rewrite Hdq. by apply (extends_deque h).
  - intros sel d Hsel Hd. destruct (Hshare sel Hsel) as (sel' & Hsel' & Ha).
    rewrite <- Ha. apply Hall; [done|]. rewrite Ha. by apply (extends_dict h).
Qed.

End MoreResolving.

(** The chain [withDirectory(directory=<Directory>)] when every round trip
    times out. *)
Lemma resolve_ids_raises_fetch_error_witness :
  let H := offline_collaborators in
  let ctx := mkContext 0 0 0 in
  let node := mkField "Container" "withDirectory" 0 [] in
  let h := {| deques := [[node]];
              dicts := [[("directory", VHandle "Directory" ctx [])]] |} in
  let e := ExecuteTimeoutError "Request timed out."
             (mkExc [httpx_TimeoutException; httpx_RequestError] "timed out") in
  resolve_ids ctx h = (Raise e, h)
  /\ (exists x, chain_handle h [node] x /\ fetch_id x = Raise e)
  /\ deques h = deques h.
Proof.
  intros H ctx node h e. split; [reflexivity|].
  apply (resolve_ids_raises_fetch_error ctx h [node] e h).
  - intros ts. apply Permutation_rev.
  - reflexivity.
  - intros sel Hin%list_elem_of_singleton. subst sel.
    eexists. split; [reflexivity | distinct_keys].
  - reflexivity.
Defined.

(** The chain [from(address="alpine")]: nothing to resolve. *)
Lemma resolve_ids_settled_witness :
  let H := sample_collaborators (inr VNone) in
  let ctx := mkContext 0 0 0 in
  let node := mkField "Container" "from" 0 [] in
  let h := {| deques := [[node]]; dicts := [[("address", VStr "alpine")]] |} in
  start_all 0 [node] h = (Ok [], h) /\ resolve_ids ctx h = (Ok tt, h).
Proof.
  intros H ctx node h.
  apply (resolve_ids_settled ctx h [node]).
  - intros ts. apply Permutation_rev.
  - reflexivity.
  - intros sel Hin%list_elem_of_singleton. subst sel.
    eexists. split; [reflexivity | distinct_keys].
  - intros sel d k v Hin%list_elem_of_singleton Hd Hkv. subst sel.
    injection Hd as <-. apply list_elem_of_singleton in Hkv. injection Hkv as -> ->.
    split; [done | discriminate].
Defined.

(** The chain [withDirectory(directory=<Directory>, files=(<File>,))],
    resolved once. *)
Lemma resolve_ids_idempotent_witness :
  let H := sample_collaborators (inr VNone) in
  let ctx := mkContext 0 0 0 in
  let node := mkField "Container" "withDirectory" 0 [] in
  let h := {| deques := [[node]];
              dicts := [[("directory", VHandle "Directory" ctx []);
                         ("files", VTuple [VHandle "File" ctx []])]] |} in
  let h' := {| deques := [[node]];
               dicts := [[("directory", VScalar "DirectoryID" "id of Directory");
                          ("files", VList [VScalar "FileID" "id of File"])]] |} in
  resolve_ids ctx h = (Ok tt, h')
  /\ start_all 0 [node] h' = (Ok [], h') /\ resolve_ids ctx h' = (Ok tt, h').
Proof.
  intros H ctx node h h'. split; [reflexivity|].
  apply (resolve_ids_idempotent ctx h h' [node]).
  - intros ts. apply Permutation_rev.
  - intros x r. destruct x; simpl; try discriminate. by intros [= <-].
  - reflexivity.
  - intros sel Hin%list_elem_of_singleton. subst sel.
    eexists. split; [reflexivity | distinct_keys].
  - reflexivity.
Defined.

(** [withDirectory(directory=<Directory>)] forked by [select] of [id]: the
    fork resolves, and the argument of the origin is resolved. *)
Lemma fork_resolves_origin_witness :
  let H := sample_collaborators (inr VNone) in
  let ctx := mkContext 0 0 0 in
  let node := mkField "Container" "withDirectory" 0 [] in
  let h := {| deques := [[node]];
              dicts := [[("directory", VHandle "Directory" ctx [])]] |} in
  exists self' h1 h2,
    select ctx "Container" "id" [] h = (Ok self', h1)
    /\ resolve_ids self' h1 = (Ok tt, h2)
    /\ deques h2 !! selections ctx = Some [node]
    /\ forall sel d, sel ∈ [node] -> dicts h !! field_args sel = Some d ->
         exists d', dicts h2 !! field_args sel = Some d'
           /\ Forall2 (fun kv kv' =>
                 fst kv' = fst kv /\ resolved (snd kv) (snd kv')) d d'.
Proof.
  intros H ctx node h.
  eexists (mkContext 0 0 1), _, _.
  split; [lazy; reflexivity|]. split; [lazy; reflexivity|].
  eapply (fork_resolves_origin ctx (mkContext 0 0 1) h _ _ [node]
            "Container" "id" [] []).
  - intros ts. apply Permutation_rev.
  - reflexivity.
  - intros sel Hin%list_elem_of_singleton. subst sel.
    eexists. split; [reflexivity | distinct_keys].
  - left. lazy. reflexivity.
  - lazy. reflexivity.
Defined.

(** X15. When the names of the arguments are distinct, the dictionary
    [select] builds is, in the order of the arguments, the encoding of each
    argument whose value is not its default object. *)
Theorem encode_args_distinct_names (args : list Arg) :
  NoDup (map arg_name args) ->
  encode_args args =
    map (fun arg => (arg_name arg, as_input arg))
      (List.filter (fun arg => negb (py_is (arg_value arg) (arg_default arg))) args).
Proof.
  intros Hnd. unfold encode_args, Dict.of_items.
  set (kept := fun arg => negb (py_is (arg_value arg) (arg_default arg))).
  assert (Hgen : forall (acc : Dict.t pyval),
            NoDup (Dict.keys acc ++ map arg_name args) ->
            fold_left (fun d kv => Dict.set (fst kv) (snd kv) d)
              (map (fun arg => (arg_name arg, as_input arg)) (List.filter kept args))
              acc
            = acc ++ map (fun arg => (arg_name arg, as_input arg))
                       (List.filter kept args)).
  { clear Hnd. induction args as [|a args IH]; intros acc Hnd; simpl.
    - by rewrite app_nil_r.
    - apply NoDup_app in Hnd as (Hacc & Hdisj & Hargs). simpl in Hargs.
      apply NoDup_cons in Hargs as [Ha Hargs].
      destruct (kept a); simpl.
      + rewrite dict_set_fresh.
        2:{ intros Hin. apply (Hdisj _ Hin). left. }
        rewrite IH; [by rewrite <- app_assoc|].
        unfold Dict.keys. rewrite map_app. simpl. rewrite <- app_assoc. simpl.
        apply NoDup_app. split; [done|]. split; [|by apply NoDup_cons_2].
        intros x Hx. apply Hdisj in Hx. done.
      + apply IH. apply NoDup_app. split; [done|]. split; [|done].
        intros x Hx Hin. apply (Hdisj x Hx). by right. }
  by rewrite (Hgen []).
Qed.

Lemma encode_args_distinct_names_witness :
  encode_args [Arg2 "address" alpine;
               mkArg "platform" (mkObj 2 VNone) (mkObj 2 VNone);
               mkArg "tag" (mkObj 3 (VStr "3.19")) (mkObj 2 VNone)]
  = [("address", VStr "alpine"); ("tag", VStr "3.19")].
Proof.
  apply (encode_args_distinct_names
           [Arg2 "address" alpine;
            mkArg "platform" (mkObj 2 VNone) (mkObj 2 VNone);
            mkArg "tag" (mkObj 3 (VStr "3.19")) (mkObj 2 VNone)]).
  distinct_keys.
Defined.

(** ** More on compiling *)

Section MoreCompiling.
Context `{Collaborators}.

(** The request for a chain is the same in two stores when, node by node,
    type, name and arguments held are the same and the last nodes render
    alike: the children of the other nodes do not count. *)
Lemma nest_snoc_ext sch ds ds' (last last' : Field) (pre pre' : list Field) :
  Forall2 (fun f f' =>
     field_type_name f = field_type_name f' /\ field_name f = field_name f'
     /\ ds !! field_args f = ds' !! field_args f') pre pre' ->
  field_name last = field_name last' ->
  to_dsl sch ds last = to_dsl sch ds' last' ->
  forall first first',
    field_type_name first = field_type_name first' ->
    field_name first = field_name first' ->
    ds !! field_args first = ds' !! field_args first' ->
    to_dsl sch ds (nest first (pre ++ [last]))
      = to_dsl sch ds' (nest first' (pre' ++ [last'])).
Proof.
  intros HF Hn Hl. induction HF as [|f f' pre pre' (Ht & Hnm & Ha) HF IH];
    intros first first' Ht1 Hn1 Ha1; cbn [nest app]; rewrite !to_dsl_child.
  - by rewrite Ht1, Hn1, Ha1, Hn, Hl.
  - by rewrite (IH f f' Ht Hnm Ha), Ht1, Hn1, Ha1, !nest_name, Hnm.
Qed.

(** X16. A [select] after [select_multiple] drops what [select_multiple]
    selected: [build] ends as it does when [select] is applied to the
    context [select_multiple] was applied to, in the same request or in the
    same exception of the schema binding. *)
Theorem select_after_select_multiple (self : Context) (h : heap)
    (init : list Field) (parent : Field)
    (type_name_m : string) (fields : list (string * string))
    (tn fn : string) (args : list Arg) :
  deques h !! selections self = Some (init ++ [parent]) ->
  Forall (fun f => is_Some (dicts h !! field_args f)) (init ++ [parent]) ->
  exists s1 h1 s2 h2 s3 h3,
    select_multiple self type_name_m fields h = (Ok s1, h1)
    /\ select s1 tn fn args h1 = (Ok s2, h2)
    /\ select self tn fn args h = (Ok s3, h3)
    /\ fst (build s2 h2) = fst (build s3 h3).
Proof.
  intros Hs Hall.
  pose proof (select_multiple_run self type_name_m fields h init parent Hs) as Hm.
  pose proof (select_run self tn fn args h _ Hs) as Hdirect.
  set (node := replace_children parent _) in Hm.
  set (h1 := {| deques := _ ++ [init ++ [node]]; dicts := _ |}) in Hm.
  set (s1 := replace_selections self _) in Hm.
  assert (Hs1 : deques h1 !! selections s1 = Some (init ++ [node]))
    by apply lookup_last.
  pose proof (select_run s1 tn fn args h1 _ Hs1) as Hthen.
  set (new := mkField tn fn (length (dicts h1)) []) in Hthen.
  set (new' := mkField tn fn (length (dicts h)) []) in Hdirect.
  set (h2 := {| deques := deques h1 ++ _; dicts := dicts h1 ++ _ |}) in Hthen.
  set (h3 := {| deques := deques h ++ _; dicts := dicts h ++ _ |}) in Hdirect.
  set (s2 := replace_selections s1 _) in Hthen.
  set (s3 := replace_selections self (length (deques h))) in Hdirect.
  assert (Hs2 : deques h2 !! selections s2 = Some ((init ++ [node]) ++ [new]))
    by apply lookup_last.
  assert (Hs3 : deques h3 !! selections s3 = Some ((init ++ [parent]) ++ [new']))
    by apply lookup_last.
  assert (Hnew : to_dsl (schema self) (dicts h2) new
                 = to_dsl (schema self) (dicts h3) new').
  { rewrite !to_dsl_unfold. simpl. by rewrite !lookup_last. }
  assert (Hold : forall f, is_Some (dicts h !! field_args f) ->
            dicts h2 !! field_args f = dicts h3 !! field_args f).
  { intros f [kw Hkw]. simpl.
    rewrite (lookup_app_l_Some _ _ _ _ Hkw).
    by rewrite (lookup_app_l_Some _ _ _ _ (lookup_app_l_Some _ _ _ _ Hkw)). }
  assert (HF : Forall2 (fun f f' =>
            field_type_name f = field_type_name f'
            /\ field_name f = field_name f'
            /\ dicts h2 !! field_args f = dicts h3 !! field_args f')
            (init ++ [node]) (init ++ [parent])).
  { apply Forall_app in Hall as [Hinit Hparent]. apply Forall_inv in Hparent.
    apply Forall2_app.
    - clear -Hinit Hold. induction Hinit as [|f l Hf _ IH]; constructor; auto.
    - constructor; [|constructor]. repeat split. by apply (Hold parent). }
  destruct (init ++ [node]) as [|first pre] eqn:E; [by destruct init|].
  destruct (init ++ [parent]) as [|first' pre'] eqn:E'; [by destruct init|].
  apply Forall2_cons in HF as [(Ht & Hn & Ha) HF].
  pose proof (nest_snoc_ext (schema self) _ _ new new' pre pre' HF eq_refl Hnew
                first first' Ht Hn Ha) as Heq.
  exists s1, h1, s2, h2, s3, h3.
  split; [done|]. split; [done|]. split; [done|].
  unfold build, bind, deque_read. rewrite Hs2, Hs3. cbn [app].
  rewrite !collapse_nest. cbn [fst]. exact Heq.
Qed.

End MoreCompiling.

Lemma select_after_select_multiple_witness :
  let H := sample_collaborators (inr VNone) in
  exists s1 h1 s2 h2 s3 h3,
    select_multiple (mkContext 0 0 0) "Container" [("a", "stdout")]
      {| deques := [[mkField "Query" "container" 0 []]]; dicts := [[]] |}
      = (Ok s1, h1)
    /\ select s1 "Container" "id" [] h1 = (Ok s2, h2)
    /\ select (mkContext 0 0 0) "Container" "id" []
         {| deques := [[mkField "Query" "container" 0 []]]; dicts := [[]] |}
       = (Ok s3, h3)
    /\ fst (build s2 h2) = fst (build s3 h3).
Proof.
  intros H.
  apply (select_after_select_multiple (H := H) (mkContext 0 0 0)
           {| deques := [[mkField "Query" "container" 0 []]]; dicts := [[]] |}
           [] (mkField "Query" "container" 0 []) "Container" [("a", "stdout")]
           "Container" "id" []).
  - reflexivity.
  - apply Forall_cons. split; [by eexists | apply Forall_nil_2].
Defined.
